(** * capra_web_ui: the input layer

    A shallow embedding of [InputSystem] (the per-frame gamepad polling and
    keyboard dispatch class) and of [mapGamepadToJoy] (GamepadUtils.ts),
    followed by the properties established about them.

    Conventions of the embedding:
    - a JavaScript [number] is an IEEE 754 binary64 value, taken from the
      Standard Library's axiom-free specification [spec_float];
    - a property read that may yield [undefined] is an [option];
    - an abrupt completion (a thrown [TypeError]) is explicit;
    - what [navigator.getGamepads()] returns for a frame is a list of device
      samples, each a value of its own: the host does not change a sample it
      has handed out (the module [Refs] looks at the one place where the
      class copies arrays of a device object, with object identity);
    - the callback [Action.perform] is opaque to the class: a call to it is
      recorded, in order, in the list of calls an operation returns.  The
      callbacks are assumed neither to throw nor to call back into the
      [InputSystem] while a pass is running. *)

From Stdlib Require Import ZArith Floats.SpecFloat.
From stdpp Require Import gmap strings list.

Local Open Scope string_scope.
Local Open Scope nat_scope.
Local Open Scope list_scope.

(** ** JavaScript values used by the code *)

Module JS.

(** [number]: binary64. *)
Definition number := spec_float.

Definition prec : Z := 53.
Definition emax : Z := 1024.

(** A [number] that is a well-formed binary64 datum. *)
Definition is_binary64 (x : number) : bool := valid_binary prec emax x.



(** The literals of the source, as the double nearest to the decimal. *)
Definition lit_0_0 : number := S754_zero false.
Definition lit_0_09 : number := S754_finite false 6485183463413514 (-56).
Definition lit_0_1 : number := S754_finite false 7205759403792794 (-56).
Definition lit_0_2 : number := S754_finite false 7205759403792794 (-55).
Definition lit_0_5 : number := S754_finite false 4503599627370496 (-53).
Definition lit_1_0 : number := S754_finite false 4503599627370496 (-52).
Definition lit_neg_1_0 : number := S754_finite true 4503599627370496 (-52).

(** An integer as a [number] (exact for the small integers used here). *)
Definition ofZ (n : Z) : number := binary_normalize prec emax n 0 false.

(** [x < y], [x > y] and [x >= y] on numbers: false when either is NaN. *)
Definition lt (x y : number) : bool := SFltb x y.
Definition gt (x y : number) : bool := SFltb y x.
Definition ge (x y : number) : bool := SFleb y x.

(** [a !== b] where each side is a number or [undefined].  On two numbers
    this is numeric inequality: NaN differs from itself, and the two zeros
    do not differ. *)
Definition strict_neq (a b : option number) : bool :=
  match a, b with
  | None, None => false
  | Some x, Some y => negb (SFeqb x y)
  | _, _ => true
  end.

(** [s.includes(search)]: [search] occurs in [s] as a contiguous run.
    The searches of the source are ASCII, for which byte-wise search in
    the UTF-8 text agrees with code-unit search. *)
Fixpoint includes (s search : string) : bool :=
  match s with
  | EmptyString => String.prefix search EmptyString
  | String _ s' => String.prefix search s || includes s' search
  end.

(** ToInt32, as applied by [~~x]: truncate toward zero, wrap modulo 2^32
    into the signed range; NaN, the infinities and the zeros give 0. *)
Definition wrap32 (n : Z) : Z := (n + 2 ^ 31) mod 2 ^ 32 - 2 ^ 31.

Definition toInt32 (x : number) : Z :=
  match x with
  | S754_finite s m e => wrap32 (cond_Zopp s (Z.shiftl (Z.pos m) e))
  | _ => 0
  end.

(** [Math.round(ms / 1000)] for an integral millisecond count: the nearest
    integer, a half rounding up. *)
Definition round_div_1000 (ms : Z) : Z := (ms + 500) / 1000.

(** Completion of a call: a value, or a thrown error. *)
Inductive Error := TypeError.

Inductive Completion (A : Type) :=
| Normal (a : A)
| Throw (e : Error).
Arguments Normal {A} a.
Arguments Throw {A} e.

Definition completed {A} (c : Completion A) : bool :=
  match c with Normal _ => true | Throw _ => false end.

End JS.
Import JS.

(** ** The Gamepad API objects read by the code *)

(** A button sample: a [GamepadButton] object, or (older hosts) a bare
    intensity, the case [typeof rawBtn == 'number'] of [isPressed]. *)
Inductive GamepadButton :=
| ButtonObject (pressed : bool) (value : number)
| ButtonNumber (intensity : number).

Record Gamepad := {
  id : string;
  axes : list number;
  buttons : list GamepadButton;
  timestamp : number;
}.

(** One sample of [navigator.getGamepads()]: a slot is a device or empty. *)
Definition GamepadList := list (option Gamepad).

(** ** InputSystem/@types

    The class imports [Action], [Binding], [Context], [GamepadState] and
    the context shapes from [~utils/InputSystem/@types], a file that is not
    among the sources.  The four declarations below stand for it. *)

(** Modelled from the spec: the [Binding] union of InputSystem/@types, "a
    tagged variant over input source kinds": [keyboard] (key code and
    press/release edge), [gamepadButton] (button index), [gamepadAxis] (axis
    index), [gamepad] and [spacemouse]; the fields are those the class
    reads ([code], [onKeyDown], [axis], [button]).  An omitted [onKeyDown]
    reads as a falsy value and is [false] here.  [UnknownBinding] is not a
    member of the union: it stands for a run-time object whose [type]
    matches no [case] of the class, the spec's "MalformedBinding". *)
Inductive Binding :=
| KeyboardBinding (code : string) (onKeyDown : bool)
| GamepadBinding
| GamepadAxisBinding (axis : nat)
| GamepadBtnBinding (button : nat)
| SpaceMouseBinding
| UnknownBinding (tag : string).

(** Modelled from the spec: [GamepadState] of InputSystem/@types, the
    "current+previous sample, slot index" of the frame-scoped context, with
    the three fields [updateGamepad] fills in; [prevGamepad] is
    [this.lastGamepad[i]], which may be [undefined]. *)
Record GamepadState := {
  gamepad : Gamepad;
  prevGamepad : option Gamepad;
  index : nat;
}.

(** Modelled from the spec: the [Context] union of InputSystem/@types, "a
    tagged variant carrying the information relevant to the triggering
    binding", one constructor per object literal the class builds:
    [{ type: 'keyboard' }], [{ type: 'none' }], the frame-scoped
    [gamepadCtx], and its three spreads with [type] replaced and [value],
    or [axes] and [buttons], added. *)
Inductive Context :=
| KeyboardCtx
| NoneCtx
| GamepadCtx (ctx_id : string) (gamepadState : GamepadState)
| GamepadAxisCtx (ctx_id : string) (gamepadState : GamepadState)
                 (value : option number)
| GamepadBtnCtx (ctx_id : string) (gamepadState : GamepadState)
| SpaceMouseCtx (ctx_id : string) (gamepadState : GamepadState)
                (ctx_axes : list number) (ctx_buttons : list GamepadButton).

(** Modelled from the spec: [Action] of InputSystem/@types,
    "{ name, bindings, perform }".  The callback [perform] is not part of
    the record: a call to it is recorded as a [Call]. *)
Record Action := {
  name : string;
  bindings : list Binding;
}.

(** One invocation [action.perform(context)]. *)
Record Call := {
  callee : Action;
  argument : Context;
}.

(** ** Module-level helpers of the class file *)

Definition isInvalidGamepad (gamepad : Gamepad) : bool :=
  includes (id gamepad) "Unknown Gamepad"
  || (Nat.eqb (length (axes gamepad)) 0
      && Nat.eqb (length (buttons gamepad)) 0).

Definition keyboardCtx : Context := KeyboardCtx.
Definition emptyCtx : Context := NoneCtx.

Definition isPressed (rawBtn : GamepadButton) : bool :=
  match rawBtn with
  | ButtonNumber v => gt v lit_0_1
  | ButtonObject pressed _ => pressed
  end.

(** ** Calls and abrupt completions

    What a piece of the class does besides changing its fields: the calls to
    [perform] it makes, in order, and how it completes.  A thrown error
    keeps the calls made before it and skips the rest. *)

Module Eff.

Definition Eff (A : Type) : Type := list Call * Completion A.

#[export] Instance eff_ret : MRet Eff := λ A a, ([], Normal a).

#[export] Instance eff_bind : MBind Eff := λ A B k m,
  match m with
  | (cs, Normal a) => let '(cs', r) := k a in (cs ++ cs', r)
  | (cs, Throw e) => (cs, Throw e)
  end.

Definition throw {A} (e : Error) : Eff A := ([], Throw e).

Definition lift {A} (c : Completion A) : Eff A := ([], c).

(** [action.perform(context)] *)
Definition perform (action : Action) (context : Context) : Eff unit :=
  ([ {| callee := action; argument := context |} ], Normal tt).

(** [for (const x of xs) body] *)
Fixpoint forOf {A} (xs : list A) (body : A → Eff unit) : Eff unit :=
  match xs with
  | [] => mret tt
  | x :: xs' => body x ≫= λ _, forOf xs' body
  end.

(** [const [a, b] = r]: destructuring [undefined] throws. *)
Definition destructure {A} (r : option A) : Eff A :=
  match r with
  | Some p => mret p
  | None => throw TypeError
  end.

End Eff.
Import Eff.

(** ** The class *)

Record InputSystem := {
  isRunning : bool;
  actions : list Action;
  lastTimestamp : gmap nat number;
  lastGamepad : gmap nat Gamepad;
  isBrowserSupported : bool;
}.

(** What a binding check hands back: a pair, or nothing ([undefined]) when
    the function body ends without a [return]. *)
Definition Verdict : Type := option (bool * Context).

(** The instance together with what the host holds for it: the number of
    pending [requestAnimationFrame(this.update)] requests and the event
    types it listens to. *)
Record World := {
  this : InputSystem;
  frameRequests : nat;
  listeners : list string;
}.

(** The result of running a method. *)
Record Run (S : Type) := {
  outcome : Completion unit;
  after : S;
  performed : list Call;
}.
Arguments outcome {S} _.
Arguments after {S} _.
Arguments performed {S} _.

Definition set_isRunning (b : bool) (sys : InputSystem) : InputSystem :=
  {| isRunning := b; actions := actions sys;
     lastTimestamp := lastTimestamp sys; lastGamepad := lastGamepad sys;
     isBrowserSupported := isBrowserSupported sys |}.

Definition set_actions (a : list Action) (sys : InputSystem) : InputSystem :=
  {| isRunning := isRunning sys; actions := a;
     lastTimestamp := lastTimestamp sys; lastGamepad := lastGamepad sys;
     isBrowserSupported := isBrowserSupported sys |}.

(** [this.lastTimestamp[i] = gamepad.timestamp; this.lastGamepad[i] = gamepad] *)
Definition remember (i : nat) (gamepad : Gamepad) (sys : InputSystem)
  : InputSystem :=
  {| isRunning := isRunning sys; actions := actions sys;
     lastTimestamp := <[i := timestamp gamepad]> (lastTimestamp sys);
     lastGamepad := <[i := gamepad]> (lastGamepad sys);
     isBrowserSupported := isBrowserSupported sys |}.

Definition set_this (sys : InputSystem) (w : World) : World :=
  {| this := sys; frameRequests := frameRequests w; listeners := listeners w |}.

(** [requestAnimationFrame(this.update)] *)
Definition requestAnimationFrame (w : World) : World :=
  {| this := this w; frameRequests := S (frameRequests w);
     listeners := listeners w |}.

Definition initEventListeners : list string :=
  ["keydown"; "keyup"; "gamepadconnected"; "gamepaddisconnected"].

(** [new InputSystem(actions)]; [hasGetGamepads] is whether the host has
    [navigator.getGamepads]. *)
Definition constructor (hasGetGamepads : bool) (acts : list Action) : World :=
  {| this := {| isRunning := false; actions := acts;
                lastTimestamp := ∅; lastGamepad := ∅;
                isBrowserSupported := hasGetGamepads |};
     frameRequests := 0;
     listeners := if hasGetGamepads then initEventListeners else [] |}.

Definition checkActionsBindings (sys : InputSystem)
    (checkBinding : Binding → Completion Verdict) : Eff unit :=
  forOf (actions sys) (λ action,
    forOf (bindings action) (λ binding,
      r ← lift (checkBinding binding);
      '(canPerform, context) ← destructure r;
      if canPerform : bool then perform action context else mret tt)).

(** The arrow function handed to [checkActionsBindings] by [updateGamepad],
    with the variables it closes over. *)
Definition gamepadChecker (sys : InputSystem) (i : nat) (gamepad : Gamepad)
    (b : Binding) : Completion Verdict :=
  let gamepadState :=
    {| gamepad := gamepad; prevGamepad := lastGamepad sys !! i; index := i |} in
  let gamepadCtx := GamepadCtx (id gamepad) gamepadState in
  match b with
  | GamepadBinding =>
      if includes (id gamepad) "SpaceMouse"
      then Normal (Some (false, emptyCtx))
      else Normal (Some (true, gamepadCtx))
  | KeyboardBinding _ _ => Normal (Some (false, emptyCtx))
  | GamepadAxisBinding axis =>
      let value := axes gamepad !! axis in
      match lastGamepad sys !! i with
      | None => Throw TypeError
      | Some last =>
          if strict_neq value (axes last !! axis)
          then Normal (Some (true,
                 GamepadAxisCtx (id gamepad) gamepadState (axes gamepad !! axis)))
          else Normal (Some (false, emptyCtx))
      end
  | GamepadBtnBinding button =>
      let btn := buttons gamepad !! button in
      let lastBtn := lastGamepad sys !! i ≫= λ last, buttons last !! button in
      let currentlyPressed :=
        match btn with Some raw => isPressed raw | None => false end in
      let pressedLastUpdate :=
        match lastBtn with Some raw => isPressed raw | None => false end in
      if currentlyPressed && negb pressedLastUpdate
      then Normal (Some (true, GamepadBtnCtx (id gamepad) gamepadState))
      else Normal (Some (false, emptyCtx))
  | SpaceMouseBinding =>
      if includes (id gamepad) "SpaceMouse"
      then Normal (Some (true,
             SpaceMouseCtx (id gamepad) gamepadState
                           (axes gamepad) (buttons gamepad)))
      else Normal (Some (false, emptyCtx))
  | UnknownBinding _ => Normal None
  end.

(** The body of the slot loop of [updateGamepad] at index [i]. *)
Definition updateSlot (gamepads : GamepadList) (i : nat) (sys : InputSystem)
  : Run InputSystem :=
  match gamepads !! i with
  | Some (Some gamepad) =>
      if isInvalidGamepad gamepad
      then {| outcome := Normal tt; after := sys; performed := [] |}
      else
        match checkActionsBindings sys (gamepadChecker sys i gamepad) with
        | (cs, Normal _) =>
            {| outcome := Normal tt; after := remember i gamepad sys;
               performed := cs |}
        | (cs, Throw e) =>
            {| outcome := Throw e; after := sys; performed := cs |}
        end
  | _ => {| outcome := Normal tt; after := sys; performed := [] |}
  end.

(** The loop over the indices [indices], in order, stopping at a throw. *)
Fixpoint updateSlots (gamepads : GamepadList) (indices : list nat)
    (sys : InputSystem) : Run InputSystem :=
  match indices with
  | [] => {| outcome := Normal tt; after := sys; performed := [] |}
  | i :: rest =>
      let r := updateSlot gamepads i sys in
      match outcome r with
      | Normal _ =>
          let r' := updateSlots gamepads rest (after r) in
          {| outcome := outcome r'; after := after r';
             performed := performed r ++ performed r' |}
      | Throw e => r
      end
  end.

(** [for (let i = 0; i <= gamepads.length; i++)]: the indices run from [0]
    to [gamepads.length], both included.  [gamepads] is what
    [navigator.getGamepads()] returned. *)
Definition updateGamepad (gamepads : GamepadList) (sys : InputSystem)
  : Run InputSystem :=
  updateSlots gamepads (seq 0 (S (length gamepads))) sys.

Definition update (gamepads : GamepadList) (w : World) : Run World :=
  if isRunning (this w) then
    let r := updateGamepad gamepads (this w) in
    match outcome r with
    | Normal _ =>
        {| outcome := Normal tt;
           after := requestAnimationFrame (set_this (after r) w);
           performed := performed r |}
    | Throw e =>
        {| outcome := Throw e; after := set_this (after r) w;
           performed := performed r |}
    end
  else {| outcome := Normal tt; after := w; performed := [] |}.

(** [start]; [gamepads] is what the host reports should [update] sample. *)
Definition start (gamepads : GamepadList) (w : World) : Run World :=
  if isBrowserSupported (this w) && negb (isRunning (this w))
  then update gamepads (set_this (set_isRunning true (this w)) w)
  else {| outcome := Normal tt; after := w; performed := [] |}.

Definition stop (w : World) : World :=
  set_this (set_isRunning false (this w)) w.

Definition setActionMap (acts : list Action) (w : World) : World :=
  set_this (set_actions acts (this w)) w.

(** The host runs one pending frame request. *)
Definition animationFrame (gamepads : GamepadList) (w : World) : Run World :=
  match frameRequests w with
  | 0 => {| outcome := Normal tt; after := w; performed := [] |}
  | S n =>
      update gamepads
        {| this := this w; frameRequests := n; listeners := listeners w |}
  end.

Definition keyDownChecker (e_code : string) (b : Binding)
  : Completion Verdict :=
  match b with
  | KeyboardBinding code onKeyDown =>
      if onKeyDown && bool_decide (code = e_code)
      then Normal (Some (true, keyboardCtx))
      else Normal (Some (false, emptyCtx))
  | _ => Normal (Some (false, emptyCtx))
  end.

Definition keyUpChecker (e_code : string) (b : Binding)
  : Completion Verdict :=
  match b with
  | KeyboardBinding code onKeyDown =>
      if negb onKeyDown && bool_decide (code = e_code)
      then Normal (Some (true, keyboardCtx))
      else Normal (Some (false, emptyCtx))
  | _ => Normal (Some (false, emptyCtx))
  end.

Definition onKeyDown (e_code : string) (sys : InputSystem) : Eff unit :=
  checkActionsBindings sys (keyDownChecker e_code).

Definition onKeyUp (e_code : string) (sys : InputSystem) : Eff unit :=
  checkActionsBindings sys (keyUpChecker e_code).


(** ** GamepadUtils.ts *)

Module GamepadUtils.

Record Stamp := { sec : Z; nsecs : Z }.
Record Header := { seq : Z; stamp : Stamp; frame_id : string }.
Record Joy := {
  header : Header;
  joy_axes : list number;
  joy_buttons : list Z;
}.

(** [x => x < 0.09 ? 0.0 : x] *)
Definition mapAxis (x : number) : number :=
  if lt x lit_0_09 then lit_0_0 else x.

(** [x => ~~(x.value)]; a bare intensity has no [value] property, and
    [~~undefined] is 0. *)
Definition mapButton (x : GamepadButton) : Z :=
  match x with
  | ButtonObject _ value => toInt32 value
  | ButtonNumber _ => 0
  end.

(** [mapGamepadToJoy]; [now] is [d.getTime()], in milliseconds, and
    [joySeqId] the module variable, whose new value is returned too. *)
Definition mapGamepadToJoy (now : Z) (joySeqId : Z) (gamepad : Gamepad)
  : Joy * Z :=
  let seconds := round_div_1000 now in
  ({| header := {| seq := joySeqId;
                   stamp := {| sec := seconds; nsecs := 0 |};
                   frame_id := "" |};
      joy_axes := mapAxis <$> axes gamepad;
      joy_buttons := mapButton <$> buttons gamepad |},
   (joySeqId + 1)%Z).

End GamepadUtils.

(** ** The [spacemouse] case over object references

    [gamepad.axes] and [gamepad.buttons] are array objects, and a button
    sample may itself be an object.  This module keeps the store of those
    objects, so that what [[...array]] shares with its source is visible. *)

Module Refs.

Definition loc := positive.

(** An array element: a number, or a reference to an object. *)
Inductive value :=
| Num (x : number)
| Ref (l : loc).

Inductive object :=
| ArrayObj (elems : list value)
| ButtonObj (pressed : bool) (value : number)
| GamepadObj (id : string) (axes buttons : loc) (timestamp : number).

(** [[...array]]: a new array object holding the same elements. *)
Definition spread (h : gmap loc object) (array : loc)
  : option (gmap loc object * loc) :=
  match h !! array with
  | Some (ArrayObj elems) =>
      let l := fresh (dom h) in
      Some (<[l := ArrayObj elems]> h, l)
  | _ => None
  end.

(** The context object built by the [spacemouse] case; [ctx_gamepad] is
    [gamepadState.gamepad], the device object itself. *)
Record SpaceMouseContext := {
  ctx_id : string;
  ctx_gamepad : loc;
  ctx_axes : loc;
  ctx_buttons : loc;
}.

(** The [spacemouse] case of the checker for the device object at
    [gamepad]: the store after it, and the context when it matches. *)
Definition spacemouseCase (h : gmap loc object) (gamepad : loc)
  : option (gmap loc object * option SpaceMouseContext) :=
  match h !! gamepad with
  | Some (GamepadObj id axes buttons _) =>
      if includes id "SpaceMouse" then
        '(h1, a) ← spread h axes;
        '(h2, b) ← spread h1 buttons;
        Some (h2, Some {| ctx_id := id; ctx_gamepad := gamepad;
                          ctx_axes := a; ctx_buttons := b |})
      else Some (h, None)
  | _ => None
  end.

(** What a reader of an array sees in each element. *)
Inductive sample :=
| SNumber (x : number)
| SButton (pressed : bool) (value : number)
| SOther.

Definition deref (h : gmap loc object) (v : value) : sample :=
  match v with
  | Num x => SNumber x
  | Ref l =>
      match h !! l with
      | Some (ButtonObj pressed value) => SButton pressed value
      | _ => SOther
      end
  end.

Definition readArray (h : gmap loc object) (array : loc)
  : option (list sample) :=
  match h !! array with
  | Some (ArrayObj elems) => Some (deref h <$> elems)
  | _ => None
  end.

(** The elements themselves (numbers and object identities). *)
Definition elements (h : gmap loc object) (array : loc)
  : option (list value) :=
  match h !! array with
  | Some (ArrayObj elems) => Some elems
  | _ => None
  end.

(** Later changes to objects of the store. *)
Inductive mutation :=
| SetElements (array : loc) (elems : list value)
    (* element writes, push, pop, ... on an array object *)
| SetButton (button : loc) (pressed : bool) (value : number).
    (* a button object updated in place *)

Definition target (m : mutation) : loc :=
  match m with
  | SetElements array _ => array
  | SetButton button _ _ => button
  end.

Definition isArrayWrite (m : mutation) : bool :=
  match m with SetElements _ _ => true | SetButton _ _ _ => false end.

Definition mutate (m : mutation) (h : gmap loc object) : gmap loc object :=
  match m with
  | SetElements array elems =>
      match h !! array with
      | Some (ArrayObj _) => <[array := ArrayObj elems]> h
      | _ => h
      end
  | SetButton button pressed value =>
      match h !! button with
      | Some (ButtonObj _ _) => <[button := ButtonObj pressed value]> h
      | _ => h
      end
  end.

Definition mutateAll (ms : list mutation) (h : gmap loc object)
  : gmap loc object :=
  foldl (λ h m, mutate m h) h ms.

(** The value-level reading of a sample, as a button or as a number. *)
Definition asButton (s : sample) : option GamepadButton :=
  match s with
  | SNumber x => Some (ButtonNumber x)
  | SButton pressed value => Some (ButtonObject pressed value)
  | SOther => None
  end.

Definition asNumber (s : sample) : option number :=
  match s with SNumber x => Some x | _ => None end.

(** The device object at [l] read as a [Gamepad] value. *)
Definition readGamepad (h : gmap loc object) (l : loc) : option Gamepad :=
  match h !! l with
  | Some (GamepadObj id axes buttons timestamp) =>
      sa ← readArray h axes;
      sb ← readArray h buttons;
      xs ← mapM asNumber sa;
      bs ← mapM asButton sb;
      Some (Build_Gamepad id xs bs timestamp)
  | _ => None
  end.

End Refs.

(** ** Notions used to state the properties *)

(** The slot index a dispatched context carries, if it is a device context. *)
Definition ctxIndex (c : Context) : option nat :=
  match c with
  | KeyboardCtx | NoneCtx => None
  | GamepadCtx _ s | GamepadAxisCtx _ s _ | GamepadBtnCtx _ s
  | SpaceMouseCtx _ s _ _ => Some (index s)
  end.

(** The device a sampling pass works on at slot [i]: the slot is in range,
    holds a device, and the device passes [isInvalidGamepad]. *)
Definition validAt (gamepads : GamepadList) (i : nat) : option Gamepad :=
  match gamepads !! i with
  | Some (Some g) => if isInvalidGamepad g then None else Some g
  | _ => None
  end.

(** The calls among [cs] whose context is for slot [i]. *)
Definition callsFor (i : nat) (cs : list Call) : list Call :=
  filter (λ c, ctxIndex (argument c) = Some i) cs.


(** The value of axis [k] in a sample; [None] is [undefined]. *)
Definition axisValue (k : nat) (g : Gamepad) : option number := axes g !! k.


(** The bindings of the action list in the order they are checked, each
    with its action. *)
Definition agenda (acts : list Action) : list (Action * Binding) :=
  a ← acts; (λ b, (a, b)) <$> bindings a.

(** The body of the inner loop of [checkActionsBindings]. *)
Definition checkOne (checkBinding : Binding → Completion Verdict)
    (ab : Action * Binding) : Eff unit :=
  r ← lift (checkBinding ab.2);
  '(canPerform, context) ← destructure r;
  if canPerform : bool then perform ab.1 context else mret tt.

(** The call a checked binding leads to. *)
Definition fired (checkBinding : Binding → Completion Verdict)
    (ab : Action * Binding) : list Call :=
  match checkBinding ab.2 with
  | Normal (Some (true, context)) =>
      [ {| callee := ab.1; argument := context |} ]
  | _ => []
  end.

(** The check of a binding yields a verdict. *)
Definition decides (checkBinding : Binding → Completion Verdict)
    (b : Binding) : bool :=
  match checkBinding b with
  | Normal (Some _) => true
  | _ => false
  end.

(** The two systems have the same actions and the same history at [i]. *)
Definition sameAt (i : nat) (s1 s2 : InputSystem) : Prop :=
  actions s1 = actions s2 ∧ lastGamepad s1 !! i = lastGamepad s2 !! i.



(** The frame-scoped [gamepadCtx] and the [spacemouse] context built from it. *)
Definition gamepadCtxOf (sys : InputSystem) (i : nat) (g : Gamepad) : Context :=
  GamepadCtx (id g)
    {| gamepad := g; prevGamepad := lastGamepad sys !! i; index := i |}.

Definition spaceMouseCtxOf (sys : InputSystem) (i : nat) (g : Gamepad)
  : Context :=
  SpaceMouseCtx (id g)
    {| gamepad := g; prevGamepad := lastGamepad sys !! i; index := i |}
    (axes g) (buttons g).

(** A run that does nothing. *)
Definition idle (w : World) : Run World :=
  {| outcome := Normal tt; after := w; performed := [] |}.

(** The binding is a keyboard binding for [code] on the given edge. *)
Definition keyMatches (down : bool) (code : string) (b : Binding) : bool :=
  match b with
  | KeyboardBinding c d => bool_decide (c = code) && bool_decide (d = down)
  | _ => false
  end.

(** The calls of a key event: one per matching binding, in order. *)
Definition keyCalls (down : bool) (code : string) (acts : list Action)
  : list Call :=
  ab ← agenda acts;
  if keyMatches down code ab.2
  then [ {| callee := ab.1; argument := keyboardCtx |} ] else [].

(** ** Sample data *)

Definition estop : Action :=
  {| name := "estop"; bindings := [GamepadBtnBinding 0] |}.

Definition steer : Action :=
  {| name := "steer"; bindings := [GamepadAxisBinding 0] |}.

Definition drive : Action :=
  {| name := "drive"; bindings := [GamepadBinding] |}.

Definition orbit : Action :=
  {| name := "orbit"; bindings := [SpaceMouseBinding] |}.

Definition odd : Action :=
  {| name := "odd"; bindings := [UnknownBinding "mouse"] |}.

Definition jump : Action :=
  {| name := "jump";
     bindings := [KeyboardBinding "Space" true; KeyboardBinding "Space" false] |}.

(** An ordinary pad with two axes and one button. *)
Definition xbox (x : number) (down : bool) : Gamepad :=
  {| id := "Xbox 360 Controller";
     axes := [x; lit_0_0];
     buttons := [ButtonObject down (if down then lit_1_0 else lit_0_0)];
     timestamp := lit_0_0 |}.

Definition spaceMouse : Gamepad :=
  {| id := "3Dconnexion SpaceMouse Pro";
     axes := [lit_0_0; lit_0_2; lit_0_5];
     buttons := [ButtonObject false lit_0_0];
     timestamp := lit_0_0 |}.

(** A supported host, the instance just built. *)
Definition built (acts : list Action) : World := constructor true acts.

(** A SpaceMouse device object with one axis and one button object. *)
Definition liveHeap : gmap Refs.loc Refs.object :=
  <[1%positive := Refs.GamepadObj "3Dconnexion SpaceMouse Pro"
                    2%positive 3%positive lit_0_0]>
    (<[2%positive := Refs.ArrayObj [Refs.Num lit_0_2]]>
       (<[3%positive := Refs.ArrayObj [Refs.Ref 4%positive]]>
          (<[4%positive := Refs.ButtonObj false lit_0_0]> ∅))).

Definition liveSample : Gamepad :=
  {| id := "3Dconnexion SpaceMouse Pro";
     axes := [lit_0_2];
     buttons := [ButtonObject false lit_0_0];
     timestamp := lit_0_0 |}.

(** The instance built for [steer], slot 0 holding a stored sample. *)
Definition steering : InputSystem :=
  remember 0 (xbox lit_0_2 false) (this (built [steer])).


(** ** The rest of the class, seen from the host *)

(** [onGamepadConnected] and [onGamepadDisconnected] write a line to the
    console and touch nothing else. *)
Definition onGamepadConnected (e_gamepad : Gamepad) (sys : InputSystem)
  : Eff unit := mret tt.

Definition onGamepadDisconnected (e_gamepad : Gamepad) (sys : InputSystem)
  : Eff unit := mret tt.

(** What the host can do to an instance: call one of its public methods,
    run one pending frame request, or deliver an event to [window]. *)
Inductive HostEvent :=
| StartCalled (gamepads : GamepadList)
| StopCalled
| SetActionMapCalled (acts : list Action)
| FrameCallback (gamepads : GamepadList)
| KeyDownEvent (code : string)
| KeyUpEvent (code : string)
| GamepadConnectedEvent (g : Gamepad)
| GamepadDisconnectedEvent (g : Gamepad).

(** An event of type [type] reaches [handler] when [initEventListeners]
    has registered it. *)
Definition deliver (type : string) (handler : InputSystem → Eff unit)
    (w : World) : Run World :=
  if bool_decide (type ∈ listeners w)
  then {| outcome := (handler (this w)).2; after := w;
          performed := (handler (this w)).1 |}
  else {| outcome := Normal tt; after := w; performed := [] |}.

Definition react (e : HostEvent) (w : World) : Run World :=
  match e with
  | StartCalled gamepads => start gamepads w
  | StopCalled =>
      {| outcome := Normal tt; after := stop w; performed := [] |}
  | SetActionMapCalled acts =>
      {| outcome := Normal tt; after := setActionMap acts w; performed := [] |}
  | FrameCallback gamepads => animationFrame gamepads w
  | KeyDownEvent code => deliver "keydown" (onKeyDown code) w
  | KeyUpEvent code => deliver "keyup" (onKeyUp code) w
  | GamepadConnectedEvent g => deliver "gamepadconnected" (onGamepadConnected g) w
  | GamepadDisconnectedEvent g =>
      deliver "gamepaddisconnected" (onGamepadDisconnected g) w
  end.

(** A series of host events: the calls made over all of them and the world
    they leave.  An error thrown in one of them is the host's to report;
    the events after it still happen. *)
Fixpoint reactAll (es : list HostEvent) (w : World) : list Call * World :=
  match es with
  | [] => ([], w)
  | e :: rest =>
      let r := react e w in
      let '(cs, w') := reactAll rest (after r) in
      (performed r ++ cs, w')
  end.

(** The frame with every device that [isInvalidGamepad] rejects taken out
    of its slot. *)
Definition scrub (gamepads : GamepadList) : GamepadList :=
  (λ slot, slot ≫= λ g, if isInvalidGamepad g then None else Some g)
    <$> gamepads.

(** The stored timestamps are those of the stored samples. *)
Definition inSync (sys : InputSystem) : Prop :=
  ∀ j, lastTimestamp sys !! j = timestamp <$> lastGamepad sys !! j.

(** A binding whose check in a sampling pass yields a verdict whatever the
    history: any but an axis binding or one of unknown type. *)
Definition safeBinding (b : Binding) : bool :=
  match b with
  | GamepadAxisBinding _ | UnknownBinding _ => false
  | _ => true
  end.

Definition isUnknown (b : Binding) : bool :=
  match b with UnknownBinding _ => true | _ => false end.

Definition isAxis (b : Binding) : bool :=
  match b with GamepadAxisBinding _ => true | _ => false end.

(** The event samples a frame that holds a device the pass works on at
    slot [i], or samples nothing; it does not replace the action list. *)
Definition keepsDevice (i : nat) (e : HostEvent) : Prop :=
  match e with
  | StartCalled gamepads | FrameCallback gamepads =>
      is_Some (validAt gamepads i)
  | SetActionMapCalled _ => False
  | _ => True
  end.

Definition isStop (e : HostEvent) : bool :=
  match e with StopCalled => true | _ => false end.

Definition isStart (e : HostEvent) : bool :=
  match e with StartCalled _ => true | _ => false end.

(** The messages [mapGamepadToJoy] produces over successive calls, each
    with the time of the call, from the value [joySeqId] has. *)
Fixpoint joyMessages (inputs : list (Z * Gamepad)) (joySeqId : Z)
  : list GamepadUtils.Joy :=
  match inputs with
  | [] => []
  | (now, g) :: rest =>
      let '(joy, next) := GamepadUtils.mapGamepadToJoy now joySeqId g in
      joy :: joyMessages rest next
  end.

(** ** The camera store module *)

Module CameraStore.

Inductive CameraType := MJPEG | PNG | MJPEG_CANVAS | VP8 | WEB_RTC.

(** The string each member of the enum stands for. *)
Definition CameraType_value (t : CameraType) : string :=
  match t with
  | MJPEG => "mjpeg"
  | PNG => "png"
  | MJPEG_CANVAS => "mjpeg_canvas"
  | VP8 => "vp8"
  | WEB_RTC => "web_rtc"
  end.

Record CameraOptions := {
  type : CameraType;
  topic : string;
}.

(** [payload.options] as [addCamera] reads it: either property may be
    [undefined], which is what the defaults of the destructuring are for. *)
Record GivenOptions := {
  given_type : option CameraType;
  given_topic : option string;
}.

Record Camera := {
  cameraName : string;
  options : GivenOptions;
}.

Record SelectEntry := {
  disabled : bool;
  value : CameraType;
}.

(** The state of the module.  [cameras] is an object used as a dictionary;
    the map keeps its own properties, not their order. *)
Record CameraModule := {
  videoServerIP : string;
  cameras : gmap string CameraOptions;
  typesForSelect : list SelectEntry;
}.

Definition initial : CameraModule :=
  {| videoServerIP := "localhost:8080";
     cameras :=
       <["camera1" := {| type := MJPEG;
                         topic := "/capra/camera_3d/rgb/image_raw" |}]>
         (<["camera2" := {| type := MJPEG;
                            topic := "/capra/camera_3d/depth/image_raw" |}]> ∅);
     typesForSelect :=
       [ {| disabled := false; value := MJPEG |};
         {| disabled := false; value := VP8 |};
         {| disabled := true; value := WEB_RTC |} ] |}.

(** How a mutation ends: with a new state, with a thrown error (the state
    is then as before), or with a write to an object that is no camera. *)
Inductive Outcome :=
| Done (s : CameraModule)
| Thrown (e : Error)
| Foreign.

Definition set_cameras (c : gmap string CameraOptions) (s : CameraModule)
  : CameraModule :=
  {| videoServerIP := videoServerIP s; cameras := c;
     typesForSelect := typesForSelect s |}.

Section Mutations.

(** The names the [cameras] object answers to without holding a camera of
    that name: properties it inherits or the store framework hangs on it.
    Which names these are is the host's business. *)
Variable hostProperty : string → bool.

(** [this.cameras[payload.cameraName].topic = payload.topic] *)
Definition setTopic (cameraName topic : string) (s : CameraModule) : Outcome :=
  match cameras s !! cameraName with
  | Some c =>
      Done (set_cameras
              (<[cameraName := {| type := type c; topic := topic |}]> (cameras s))
              s)
  | None => if hostProperty cameraName then Foreign else Thrown TypeError
  end.

(** [this.cameras[payload.cameraName].type = payload.type] *)
Definition setType (cameraName : string) (t : CameraType) (s : CameraModule)
  : Outcome :=
  match cameras s !! cameraName with
  | Some c =>
      Done (set_cameras
              (<[cameraName := {| type := t; topic := topic c |}]> (cameras s))
              s)
  | None => if hostProperty cameraName then Foreign else Thrown TypeError
  end.

(** One mutation committed after another: the second runs on the state the
    first left, and does not run when the first did not complete. *)
Definition thenSetType (n : string) (ty : CameraType) (o : Outcome) : Outcome :=
  match o with Done s => setType n ty s | _ => o end.

Definition thenSetTopic (n t : string) (o : Outcome) : Outcome :=
  match o with Done s => setTopic n t s | _ => o end.

End Mutations.

(** [addCamera]: the defaults, then a new [cameras] object with the old
    properties and the one of the payload. *)
Definition addCamera (payload : Camera) (s : CameraModule) : CameraModule :=
  let type := default MJPEG (given_type (options payload)) in
  let topic := default "" (given_topic (options payload)) in
  set_cameras
    (<[cameraName payload := {| type := type; topic := topic |}]> (cameras s))
    s.

End CameraStore.

(** ** The loops of [checkActionsBindings] *)

Lemma eff_bind_ret {A} (m : Eff A) : (m ≫= mret) = m.
Proof.
  destruct m as [cs [a|e]]; cbn; [|done].
  by rewrite app_nil_r.
Qed.

Lemma eff_bind_assoc {A B C} (m : Eff A) (f : A → Eff B) (g : B → Eff C) :
  ((m ≫= f) ≫= g) = (m ≫= λ a, f a ≫= g).
Proof.
  destruct m as [cs [a|e]]; cbn; [|done].
  destruct (f a) as [cs1 [b|e]]; cbn; [|done].
  destruct (g b) as [cs2 r]. by rewrite (assoc_L (++)).
Qed.

Section Loops.
Context {A : Type}.

Lemma forOf_app (xs ys : list A) (body : A → Eff unit) :
  forOf (xs ++ ys) body = (forOf xs body ≫= λ _, forOf ys body).
Proof.
  induction xs as [|x xs IH]; cbn [forOf app].
  - destruct (forOf ys body) as [cs r]. done.
  - rewrite eff_bind_assoc. destruct (body x) as [cs [[]|e]]; cbn; [|done].
    by rewrite IH.
Qed.

Lemma forOf_fmap {B} (f : B → A) (ys : list B) (body : A → Eff unit) :
  forOf (f <$> ys) body = forOf ys (body ∘ f).
Proof.
  induction ys as [|y ys IH]; cbn; [done|].
  destruct (body (f y)) as [cs [[]|e]]; cbn; [|done]. by rewrite IH.
Qed.
End Loops.

Lemma checkActionsBindings_agenda sys checkBinding :
  checkActionsBindings sys checkBinding
  = forOf (agenda (actions sys)) (checkOne checkBinding).
Proof.
  unfold checkActionsBindings, agenda.
  induction (actions sys) as [|a acts IH]; [done|].
  cbn [forOf mbind list_bind]. rewrite forOf_app, forOf_fmap, <- IH.
  done.
Qed.

Section CheckOne.
Variable checkBinding : Binding → Completion Verdict.

Lemma checkOne_decided ab :
  decides checkBinding ab.2 = true →
  checkOne checkBinding ab = (fired checkBinding ab, Normal tt).
Proof.
  unfold decides, checkOne, fired.
  destruct (checkBinding ab.2) as [[[[] ctx]|]|e]; by cbn.
Qed.

Lemma checkOne_undecided ab :
  decides checkBinding ab.2 = false →
  checkOne checkBinding ab = ([], Throw TypeError).
Proof.
  unfold decides, checkOne.
  destruct (checkBinding ab.2) as [[[[] ctx]|]|[]]; by cbn.
Qed.

(** Every binding yields a verdict: the loops run to their end and make
    the calls of the matching bindings, in order. *)
Lemma forOf_decided (l : list (Action * Binding)) :
  Forall (λ ab, decides checkBinding ab.2 = true) l →
  forOf l (checkOne checkBinding) = (l ≫= fired checkBinding, Normal tt).
Proof.
  induction 1 as [|ab l Hab _ IH]; [done|].
  cbn [forOf]. rewrite checkOne_decided, IH by done. reflexivity.
Qed.

(** The first binding that yields no verdict ends the loops with a
    [TypeError]; the calls made before it stand. *)
Lemma forOf_undecided (pre post : list (Action * Binding)) ab :
  Forall (λ ab, decides checkBinding ab.2 = true) pre →
  decides checkBinding ab.2 = false →
  forOf (pre ++ ab :: post) (checkOne checkBinding)
  = (pre ≫= fired checkBinding, Throw TypeError).
Proof.
  intros Hpre Hab. rewrite forOf_app, (forOf_decided pre) by done.
  cbn [forOf]. rewrite checkOne_undecided by done. cbn.
  by rewrite !app_nil_r.
Qed.

(** Whatever the completion, each call made comes from a binding of the
    list whose check said so. *)
Lemma forOf_calls_origin (l : list (Action * Binding)) c :
  c ∈ (forOf l (checkOne checkBinding)).1 →
  ∃ ab, ab ∈ l ∧ c ∈ fired checkBinding ab.
Proof.
  induction l as [|ab l IH]; cbn [forOf].
  - cbn. by intros ?%elem_of_nil.
  - destruct (decides checkBinding ab.2) eqn:Hd.
    + rewrite checkOne_decided by done. cbn.
      destruct (forOf l (checkOne checkBinding)) as [cs r]. cbn in *.
      intros [Hc|Hc]%elem_of_app.
      * exists ab. split; [left|done].
      * destruct (IH Hc) as (ab' & ? & ?). exists ab'. split; [by right|done].
    + rewrite checkOne_undecided by done. cbn. by intros ?%elem_of_nil.
Qed.
End CheckOne.

Lemma fired_ext check1 check2 ab :
  check1 ab.2 = check2 ab.2 → fired check1 ab = fired check2 ab.
Proof. unfold fired. by intros ->. Qed.

Lemma forOf_ext {A} (l : list A) (f g : A → Eff unit) :
  (∀ x, x ∈ l → f x = g x) → forOf l f = forOf l g.
Proof.
  induction l as [|x l IH]; intros H; [done|].
  cbn [forOf]. rewrite (H x) by left. rewrite IH; [done|].
  intros y Hy. apply H. by right.
Qed.

Lemma elem_of_agenda acts a b :
  (a, b) ∈ agenda acts ↔ a ∈ acts ∧ b ∈ bindings a.
Proof.
  unfold agenda. rewrite list_elem_of_bind. split.
  - intros (a' & Hab & Ha'). apply list_elem_of_fmap in Hab as (b' & [= -> ->] & Hb).
    done.
  - intros [Ha Hb]. exists a. split; [|done].
    apply list_elem_of_fmap. by exists b.
Qed.

(** ** The checker of [updateGamepad] *)

(** It reads of the instance only the history of its own slot. *)
Lemma gamepadChecker_sameAt s1 s2 i g b :
  lastGamepad s1 !! i = lastGamepad s2 !! i →
  gamepadChecker s1 i g b = gamepadChecker s2 i g b.
Proof. unfold gamepadChecker. by intros ->. Qed.

Lemma checkActionsBindings_sameAt s1 s2 i g :
  sameAt i s1 s2 →
  checkActionsBindings s1 (gamepadChecker s1 i g)
  = checkActionsBindings s2 (gamepadChecker s2 i g).
Proof.
  intros [Hacts Hlast]. rewrite !checkActionsBindings_agenda, Hacts.
  apply forOf_ext. intros ab _. unfold checkOne.
  by rewrite (gamepadChecker_sameAt s1 s2).
Qed.

(** A match always comes with a device context for the slot checked. *)
Lemma gamepadChecker_index sys i g b ctx :
  gamepadChecker sys i g b = Normal (Some (true, ctx)) →
  ctxIndex ctx = Some i.
Proof.
  unfold gamepadChecker. intros H.
  destruct b; repeat case_match; by simplify_eq.
Qed.

Lemma checkActionsBindings_index sys i g c :
  c ∈ (checkActionsBindings sys (gamepadChecker sys i g)).1 →
  ctxIndex (argument c) = Some i.
Proof.
  rewrite checkActionsBindings_agenda.
  intros (ab & _ & Hc)%forOf_calls_origin. unfold fired in Hc.
  destruct (gamepadChecker sys i g ab.2) as [[[[] ctx]|]|e] eqn:E;
    try by apply elem_of_nil in Hc.
  apply list_elem_of_singleton in Hc as ->. cbn.
  by eapply gamepadChecker_index.
Qed.

(** ** One slot of the loop of [updateGamepad] *)

Lemma validAt_lt gamepads i g : validAt gamepads i = Some g → i < length gamepads.
Proof.
  unfold validAt. destruct (gamepads !! i) eqn:E; [|done].
  intros _. by eapply lookup_lt_Some.
Qed.

Lemma validAt_Some gamepads i g :
  validAt gamepads i = Some g ↔
  gamepads !! i = Some (Some g) ∧ isInvalidGamepad g = false.
Proof.
  unfold validAt. split.
  - destruct (gamepads !! i) as [[g'|]|]; try done.
    destruct (isInvalidGamepad g') eqn:E; [done|]. by intros [= ->].
  - intros [-> ->]. done.
Qed.

Lemma updateSlot_skip gamepads i sys :
  validAt gamepads i = None →
  updateSlot gamepads i sys
  = {| outcome := Normal tt; after := sys; performed := [] |}.
Proof.
  unfold validAt, updateSlot.
  destruct (gamepads !! i) as [[g|]|]; try done.
  by destruct (isInvalidGamepad g).
Qed.

Lemma updateSlot_work gamepads i sys g :
  validAt gamepads i = Some g →
  updateSlot gamepads i sys
  = match checkActionsBindings sys (gamepadChecker sys i g) with
    | (cs, Normal _) =>
        {| outcome := Normal tt; after := remember i g sys; performed := cs |}
    | (cs, Throw e) =>
        {| outcome := Throw e; after := sys; performed := cs |}
    end.
Proof.
  intros [Hg Hv]%validAt_Some. unfold updateSlot. by rewrite Hg, Hv.
Qed.

Lemma updateSlot_performed gamepads i sys :
  performed (updateSlot gamepads i sys)
  = match validAt gamepads i with
    | Some g => (checkActionsBindings sys (gamepadChecker sys i g)).1
    | None => []
    end.
Proof.
  destruct (validAt gamepads i) as [g|] eqn:E.
  - rewrite (updateSlot_work _ _ _ g) by done.
    by destruct (checkActionsBindings _ _) as [cs [[]|e]].
  - by rewrite updateSlot_skip.
Qed.

(** Apart from the two history arrays at [i], a slot changes nothing. *)
Lemma updateSlot_frame gamepads i sys :
  let sys' := after (updateSlot gamepads i sys) in
  actions sys' = actions sys ∧ isRunning sys' = isRunning sys ∧
  isBrowserSupported sys' = isBrowserSupported sys ∧
  ∀ j, j ≠ i ∨ validAt gamepads i = None →
       lastGamepad sys' !! j = lastGamepad sys !! j ∧
       lastTimestamp sys' !! j = lastTimestamp sys !! j.
Proof.
  destruct (validAt gamepads i) as [g|] eqn:E.
  - rewrite (updateSlot_work _ _ _ g) by done.
    destruct (checkActionsBindings _ _) as [cs [[]|e]]; cbn; [|done].
    do 3 (split; [done|]). intros j [Hj|Hj]; [|done].
    by rewrite !lookup_insert_ne.
  - rewrite updateSlot_skip by done. done.
Qed.

(** A slot that completes has stored its sample. *)
Lemma updateSlot_history gamepads i sys :
  outcome (updateSlot gamepads i sys) = Normal tt →
  lastGamepad (after (updateSlot gamepads i sys)) !! i
  = match validAt gamepads i with
    | Some g => Some g
    | None => lastGamepad sys !! i
    end.
Proof.
  destruct (validAt gamepads i) as [g|] eqn:E.
  - rewrite (updateSlot_work _ _ _ g) by done.
    destruct (checkActionsBindings _ _) as [cs [[]|e]]; cbn; [|done].
    intros _. by rewrite lookup_insert_eq.
  - by rewrite updateSlot_skip.
Qed.

Lemma updateSlot_outcome gamepads i sys :
  outcome (updateSlot gamepads i sys)
  = match validAt gamepads i with
    | Some g => (checkActionsBindings sys (gamepadChecker sys i g)).2
    | None => Normal tt
    end.
Proof.
  destruct (validAt gamepads i) as [g|] eqn:E.
  - rewrite (updateSlot_work _ _ _ g) by done.
    by destruct (checkActionsBindings _ _) as [cs [[]|e]].
  - by rewrite updateSlot_skip.
Qed.

(** ** The whole loop *)

(** What the loop leaves alone, whether it completes or not. *)
Lemma updateSlots_frame gamepads indices sys :
  let sys' := after (updateSlots gamepads indices sys) in
  actions sys' = actions sys ∧ isRunning sys' = isRunning sys ∧
  isBrowserSupported sys' = isBrowserSupported sys ∧
  ∀ j, j ∉ indices ∨ validAt gamepads j = None →
       lastGamepad sys' !! j = lastGamepad sys !! j ∧
       lastTimestamp sys' !! j = lastTimestamp sys !! j.
Proof.
  revert sys. induction indices as [|i rest IH]; intros sys; cbn.
  - done.
  - pose proof (updateSlot_frame gamepads i sys) as (Ha & Hr & Hb & Hj).
    assert (∀ j, j ∉ i :: rest ∨ validAt gamepads j = None →
                 j ≠ i ∨ validAt gamepads i = None) as Hhere.
    { intros j [Hn|Hn]; [left; by apply not_elem_of_cons in Hn as [? _]|].
      destruct (decide (j = i)) as [->|]; [by right|by left]. }
    assert (∀ j, j ∉ i :: rest ∨ validAt gamepads j = None →
                 j ∉ rest ∨ validAt gamepads j = None) as Hrest.
    { intros j [Hn|Hn]; [left; by apply not_elem_of_cons in Hn as [_ ?]|].
      by right. }
    destruct (outcome (updateSlot gamepads i sys)) as [[]|e].
    + cbn. destruct (IH (after (updateSlot gamepads i sys)))
        as (Ha' & Hr' & Hb' & Hj').
      do 3 (split; [congruence|]). intros j Hjj.
      destruct (Hj' j (Hrest j Hjj)) as [-> ->]. by apply Hj, Hhere.
    + do 3 (split; [done|]). intros j Hjj. by apply Hj, Hhere.
Qed.

(** Every call of the loop is made for a slot among [indices] that holds a
    device the pass works on, and carries that slot's index. *)
Lemma updateSlots_calls gamepads indices sys c :
  c ∈ performed (updateSlots gamepads indices sys) →
  ∃ i g, i ∈ indices ∧ validAt gamepads i = Some g ∧
         ctxIndex (argument c) = Some i.
Proof.
  revert sys. induction indices as [|i rest IH]; intros sys; cbn.
  - by intros ?%elem_of_nil.
  - assert (c ∈ performed (updateSlot gamepads i sys) →
            ∃ g, validAt gamepads i = Some g ∧ ctxIndex (argument c) = Some i)
      as Hslot.
    { rewrite updateSlot_performed.
      destruct (validAt gamepads i) as [g|]; [|by intros ?%elem_of_nil].
      intros Hc. exists g. split; [done|].
      by eapply checkActionsBindings_index. }
    destruct (outcome (updateSlot gamepads i sys)) as [[]|e]; cbn.
    + intros [Hc|Hc]%elem_of_app.
      * destruct (Hslot Hc) as (g & ? & ?). exists i, g. split; [left|done].
      * destruct (IH _ Hc) as (i' & g & ? & ? & ?). exists i', g.
        split; [by right|done].
    + intros Hc. destruct (Hslot Hc) as (g & ? & ?). exists i, g.
      split; [left|done].
Qed.

Lemma updateSlot_sameAt gamepads i s1 s2 :
  sameAt i s1 s2 →
  outcome (updateSlot gamepads i s1) = outcome (updateSlot gamepads i s2) ∧
  performed (updateSlot gamepads i s1) = performed (updateSlot gamepads i s2).
Proof.
  intros Hs. rewrite !updateSlot_outcome, !updateSlot_performed.
  destruct (validAt gamepads i) as [g|]; [|done].
  by rewrite (checkActionsBindings_sameAt s1 s2).
Qed.

(** When the checks of every slot worked on complete, so does the loop; it
    makes the calls of each slot in turn, each decided against the history
    the loop started with, and stores each sample. *)
Lemma updateSlots_complete gamepads indices sys0 :
  NoDup indices →
  (∀ i, i ∈ indices → outcome (updateSlot gamepads i sys0) = Normal tt) →
  ∀ sys,
    actions sys = actions sys0 →
    (∀ i, i ∈ indices → lastGamepad sys !! i = lastGamepad sys0 !! i) →
    let r := updateSlots gamepads indices sys in
    outcome r = Normal tt ∧
    performed r = (indices ≫= λ i, performed (updateSlot gamepads i sys0)) ∧
    ∀ i, i ∈ indices →
         lastGamepad (after r) !! i
         = match validAt gamepads i with
           | Some g => Some g
           | None => lastGamepad sys0 !! i
           end.
Proof.
  induction 1 as [|i rest Hi Hnd IH]; intros Hok sys Hacts Hlast; cbn.
  - split; [done|]. split; [done|]. by intros i ?%elem_of_nil.
  - destruct (updateSlot_sameAt gamepads i sys sys0) as [Ho Hp].
    { split; [done|]. apply Hlast. left. }
    pose proof (Hok i ltac:(left)) as Hoki. rewrite <- Ho in Hoki.
    pose proof (updateSlot_frame gamepads i sys) as (Ha & _ & _ & Hj).
    pose proof (updateSlot_history gamepads i sys Hoki) as Hh.
    rewrite Hoki. cbn.
    destruct (IH (λ j Hj', Hok j ltac:(by right))
                 (after (updateSlot gamepads i sys))) as (Ho' & Hp' & Hl').
    { congruence. }
    { intros j Hjr. destruct (Hj j) as [-> _]; [|apply Hlast; by right].
      left. intros ->. done. }
    split; [done|]. split; [by rewrite Hp, Hp'|].
    intros j [->|Hjr]%elem_of_cons; [|by apply Hl'].
    pose proof (updateSlots_frame gamepads rest
                  (after (updateSlot gamepads i sys))) as (_ & _ & _ & Hf).
    destruct (Hf i) as [-> _]; [by left|].
    rewrite Hh. destruct (validAt gamepads i); [done|]. apply Hlast. left.
Qed.

Lemma callsFor_app i cs1 cs2 :
  callsFor i (cs1 ++ cs2) = callsFor i cs1 ++ callsFor i cs2.
Proof. apply filter_app. Qed.

Lemma callsFor_all i cs :
  (∀ c, c ∈ cs → ctxIndex (argument c) = Some i) → callsFor i cs = cs.
Proof.
  induction cs as [|c cs IH]; intros H; [done|].
  unfold callsFor. rewrite filter_cons_True by (apply H; left).
  f_equal. apply IH. intros c' Hc'. apply H. by right.
Qed.

Lemma callsFor_none i j cs :
  i ≠ j → (∀ c, c ∈ cs → ctxIndex (argument c) = Some j) → callsFor i cs = [].
Proof.
  intros Hij. induction cs as [|c cs IH]; intros H; [done|].
  unfold callsFor. rewrite filter_cons_False.
  - apply IH. intros c' Hc'. apply H. by right.
  - rewrite (H c) by left. congruence.
Qed.

Lemma updateSlot_calls_index gamepads j sys c :
  c ∈ performed (updateSlot gamepads j sys) → ctxIndex (argument c) = Some j.
Proof.
  rewrite updateSlot_performed. destruct (validAt gamepads j) as [g|].
  - apply checkActionsBindings_index.
  - by intros ?%elem_of_nil.
Qed.

(** Of the calls of all slots, those for slot [i] are the calls of slot [i]. *)
Lemma callsFor_slots gamepads sys i indices :
  NoDup indices →
  callsFor i (indices ≫= λ j, performed (updateSlot gamepads j sys))
  = if decide (i ∈ indices) then performed (updateSlot gamepads i sys) else [].
Proof.
  induction 1 as [|j rest Hj Hnd IH]; [done|].
  change ((j :: rest) ≫= ?f) with (f j ++ (rest ≫= f)).
  rewrite callsFor_app, IH. destruct (decide (i = j)) as [->|Hij].
  - rewrite callsFor_all by apply updateSlot_calls_index.
    rewrite decide_False by done. rewrite decide_True by left.
    by rewrite app_nil_r.
  - rewrite (callsFor_none i j) by (done || apply updateSlot_calls_index).
    cbn. destruct (decide (i ∈ rest)).
    + by rewrite decide_True by (by right).
    + rewrite decide_False; [done|]. by intros [?|?]%elem_of_cons.
Qed.

(** A sampling pass in which the checks of every device complete. *)
Lemma updateGamepad_complete gamepads sys :
  (∀ i, outcome (updateSlot gamepads i sys) = Normal tt) →
  let r := updateGamepad gamepads sys in
  outcome r = Normal tt ∧
  actions (after r) = actions sys ∧
  (∀ i, callsFor i (performed r) = performed (updateSlot gamepads i sys)) ∧
  (∀ i, lastGamepad (after r) !! i
        = match validAt gamepads i with
          | Some g => Some g
          | None => lastGamepad sys !! i
          end).
Proof.
  intros Hok. unfold updateGamepad.
  destruct (updateSlots_complete gamepads (seq 0 (S (length gamepads))) sys
              (NoDup_seq _ _) (λ i _, Hok i) sys eq_refl (λ _ _, eq_refl))
    as (Ho & Hp & Hl).
  pose proof (updateSlots_frame gamepads (seq 0 (S (length gamepads))) sys)
    as (Ha & _ & _ & Hf).
  split; [done|]. split; [done|]. split.
  - intros i. rewrite Hp, callsFor_slots by apply NoDup_seq.
    case_decide as Hi; [done|].
    rewrite updateSlot_performed.
    destruct (validAt gamepads i) as [g|] eqn:E; [|done].
    exfalso. apply Hi, elem_of_seq. apply validAt_lt in E. lia.
  - intros i. destruct (decide (i ∈ seq 0 (S (length gamepads)))) as [Hi|Hi].
    + by apply Hl.
    + destruct (Hf i) as [-> _]; [by left|].
      destruct (validAt gamepads i) as [g|] eqn:E; [|done].
      exfalso. apply Hi, elem_of_seq. apply validAt_lt in E. lia.
Qed.

(** ** Successive passes *)




(** ** An action list of one action with one binding *)

Lemma agenda_single a b : bindings a = [b] → agenda [a] = [(a, b)].
Proof. unfold agenda. cbn. by intros ->. Qed.

Lemma checkActionsBindings_single sys a b check :
  actions sys = [a] → bindings a = [b] →
  checkActionsBindings sys check = checkOne check (a, b) ≫= λ _, mret tt.
Proof.
  intros Ha Hb. by rewrite checkActionsBindings_agenda, Ha, (agenda_single a b).
Qed.

Lemma updateSlot_single gamepads i sys a b g :
  actions sys = [a] → bindings a = [b] →
  validAt gamepads i = Some g →
  decides (gamepadChecker sys i g) b = true →
  updateSlot gamepads i sys
  = {| outcome := Normal tt; after := remember i g sys;
       performed := fired (gamepadChecker sys i g) (a, b) |}.
Proof.
  intros Ha Hb Hg Hd. rewrite (updateSlot_work _ _ _ g) by done.
  rewrite (checkActionsBindings_single sys a b) by done.
  rewrite checkOne_decided by done. cbn. by rewrite app_nil_r.
Qed.

Lemma updateSlot_single_throw gamepads i sys a b g :
  actions sys = [a] → bindings a = [b] →
  validAt gamepads i = Some g →
  decides (gamepadChecker sys i g) b = false →
  updateSlot gamepads i sys
  = {| outcome := Throw TypeError; after := sys; performed := [] |}.
Proof.
  intros Ha Hb Hg Hd. rewrite (updateSlot_work _ _ _ g) by done.
  rewrite (checkActionsBindings_single sys a b) by done.
  by rewrite checkOne_undecided by done.
Qed.

(** ** Button bindings *)









(** ** Axis bindings *)

(** Without a stored sample the check does not complete. *)
Lemma axis_checker_no_history sys i g k :
  lastGamepad sys !! i = None →
  gamepadChecker sys i g (GamepadAxisBinding k) = Throw TypeError.
Proof. unfold gamepadChecker. by intros ->. Qed.

Lemma axis_checker_history sys i g k prev :
  lastGamepad sys !! i = Some prev →
  gamepadChecker sys i g (GamepadAxisBinding k)
  = Normal (Some
      (if strict_neq (axisValue k g) (axisValue k prev)
       then (true, GamepadAxisCtx (id g)
               {| gamepad := g; prevGamepad := Some prev; index := i |}
               (axisValue k g))
       else (false, emptyCtx))).
Proof.
  unfold gamepadChecker, axisValue. intros ->. by destruct (strict_neq _ _).
Qed.








(** ** An axis binding and the other slots of the frame *)

Lemma safe_decides s i g b :
  safeBinding b = true → decides (gamepadChecker s i g) b = true.
Proof.
  unfold decides, gamepadChecker. destruct b; try done; intros _.
  - by destruct (includes _ _).
  - by destruct (_ && _).
  - by destruct (includes _ _).
Qed.

Lemma known_decides s i g b :
  isUnknown b = false → is_Some (lastGamepad s !! i) →
  decides (gamepadChecker s i g) b = true.
Proof.
  intros Hb [prev Hprev]. destruct b as [c d| |k|k| |tag]; try done;
    try (by apply safe_decides).
  unfold decides. by rewrite (axis_checker_history _ _ _ _ prev).
Qed.

Lemma axis_undecided s i g k :
  lastGamepad s !! i = None →
  decides (gamepadChecker s i g) (GamepadAxisBinding k) = false.
Proof. intros H. unfold decides. by rewrite axis_checker_no_history. Qed.

(** One binding without a verdict is enough for the loops to throw. *)
Lemma forOf_throws check (l : list (Action * Binding)) ab :
  ab ∈ l → decides check ab.2 = false →
  (forOf l (checkOne check)).2 = Throw TypeError.
Proof.
  intros Hin Hab. induction l as [|x l IH]; [by apply elem_of_nil in Hin|].
  cbn [forOf]. destruct (decides check x.2) eqn:Hx.
  - rewrite checkOne_decided by done. cbn.
    apply elem_of_cons in Hin as [->|Hin]; [congruence|].
    specialize (IH Hin). destruct (forOf l (checkOne check)). cbn in *. done.
  - by rewrite checkOne_undecided.
Qed.

Lemma slot_completes gamepads i sys :
  (∀ g ab, validAt gamepads i = Some g → ab ∈ agenda (actions sys) →
           decides (gamepadChecker sys i g) ab.2 = true) →
  outcome (updateSlot gamepads i sys) = Normal tt.
Proof.
  intros H. rewrite updateSlot_outcome.
  destruct (validAt gamepads i) as [g|]; [|done].
  rewrite checkActionsBindings_agenda, forOf_decided; [done|].
  apply Forall_forall. intros ab Hab. by apply (H g).
Qed.










(** ** A slot sampled for the first time *)

(** A first sample whose button is down matches a button binding. *)
Lemma btn_checker_first_frame sys i g k :
  lastGamepad sys !! i = None →
  gamepadChecker sys i g (GamepadBtnBinding k)
  = Normal (Some
      (match buttons g !! k with
       | Some raw =>
           if isPressed raw
           then (true, GamepadBtnCtx (id g)
                   {| gamepad := g; prevGamepad := None; index := i |})
           else (false, emptyCtx)
       | None => (false, emptyCtx)
       end)).
Proof.
  unfold gamepadChecker. intros ->. cbn.
  destruct (buttons g !! k) as [raw|]; [|done]. by destruct (isPressed raw).
Qed.

(** An axis binding met while the slot has no stored sample ends the pass
    with a [TypeError], whatever else the action list holds after it; the
    sample is not stored. *)
Lemma axis_first_frame_aborts gamepads i sys g pre a k post :
  validAt gamepads i = Some g → lastGamepad sys !! i = None →
  agenda (actions sys) = pre ++ (a, GamepadAxisBinding k) :: post →
  Forall (λ ab, decides (gamepadChecker sys i g) ab.2 = true) pre →
  updateSlot gamepads i sys
  = {| outcome := Throw TypeError; after := sys;
       performed := pre ≫= fired (gamepadChecker sys i g) |}.
Proof.
  intros Hg Hnone Hag Hpre. rewrite (updateSlot_work _ _ _ g) by done.
  rewrite checkActionsBindings_agenda, Hag.
  rewrite forOf_undecided; [done|done|].
  unfold decides. cbn [snd]. by rewrite axis_checker_no_history.
Qed.

(** C2.  On the first frame of a slot an axis binding does not evaluate
    against an absent previous value: reading [this.lastGamepad[i].axes]
    throws.  Here a fresh instance with one axis action samples one pad:
    the check, the pass and [start] all end in a [TypeError], no sample is
    stored and no further frame is requested.  The button case of the same
    switch, which reads the history through [?.], does treat the absent
    sample as not pressed. *)
Theorem first_frame_axis_binding_throws :
  let w := built [steer] in
  let g := xbox lit_0_2 true in
  lastGamepad (this w) !! 0 = None ∧
  gamepadChecker (this w) 0 g (GamepadAxisBinding 0) = Throw TypeError ∧
  outcome (updateGamepad [Some g] (this w)) = Throw TypeError ∧
  performed (updateGamepad [Some g] (this w)) = [] ∧
  lastGamepad (after (updateGamepad [Some g] (this w))) !! 0 = None ∧
  outcome (start [Some g] w) = Throw TypeError ∧
  frameRequests (after (start [Some g] w)) = 0 ∧
  isRunning (this (after (start [Some g] w))) = true ∧
  gamepadChecker (this w) 0 g (GamepadBtnBinding 0)
  = Normal (Some (true, GamepadBtnCtx (id g)
      {| gamepad := g; prevGamepad := None; index := 0 |})).
Proof. cbv zeta. repeat split; vm_compute; reflexivity. Qed.

(** ** Whole-device bindings *)

(** A pass with one action and one binding whose check always yields a
    verdict: the calls for a slot are those of its own check. *)
Lemma single_binding_pass gamepads sys a b i :
  actions sys = [a] → bindings a = [b] →
  (∀ s j g, decides (gamepadChecker s j g) b = true) →
  outcome (updateGamepad gamepads sys) = Normal tt ∧
  callsFor i (performed (updateGamepad gamepads sys))
  = match validAt gamepads i with
    | Some g => fired (gamepadChecker sys i g) (a, b)
    | None => []
    end.
Proof.
  intros Ha Hb Hd.
  destruct (updateGamepad_complete gamepads sys) as (Ho & _ & Hc & _).
  { intros j. destruct (validAt gamepads j) as [g|] eqn:E.
    - by rewrite (updateSlot_single gamepads j sys a b g).
    - by rewrite updateSlot_skip. }
  split; [done|]. rewrite Hc.
  destruct (validAt gamepads i) as [g|] eqn:E.
  - by rewrite (updateSlot_single gamepads i sys a b g).
  - by rewrite updateSlot_skip.
Qed.

Lemma gamepad_decides s j g : decides (gamepadChecker s j g) GamepadBinding = true.
Proof. unfold decides, gamepadChecker. by destruct (includes _ _). Qed.

Lemma spacemouse_decides s j g :
  decides (gamepadChecker s j g) SpaceMouseBinding = true.
Proof. unfold decides, gamepadChecker. by destruct (includes _ _). Qed.

(** C5.  Whatever the stored history — so also when the sample repeats the
    previous one — a device whose id contains "SpaceMouse" is refused by a
    [gamepad] binding and matched by a [spacemouse] binding, and a device
    whose id does not contain it is matched by a [gamepad] binding and
    refused by a [spacemouse] binding; in a sampling pass over any frame the
    action bound that way is called for the slot of every such device the
    pass works on, and for no other. *)
Theorem specialized_device_exclusivity (sys : InputSystem) (i : nat) :
  (∀ g, gamepadChecker sys i g GamepadBinding
        = Normal (Some (if includes (id g) "SpaceMouse"
                        then (false, emptyCtx)
                        else (true, gamepadCtxOf sys i g)))) ∧
  (∀ g, gamepadChecker sys i g SpaceMouseBinding
        = Normal (Some (if includes (id g) "SpaceMouse"
                        then (true, spaceMouseCtxOf sys i g)
                        else (false, emptyCtx)))) ∧
  (∀ a gamepads g,
      actions sys = [a] → bindings a = [GamepadBinding] →
      validAt gamepads i = Some g →
      outcome (updateGamepad gamepads sys) = Normal tt ∧
      callsFor i (performed (updateGamepad gamepads sys))
      = if includes (id g) "SpaceMouse" then []
        else [ {| callee := a; argument := gamepadCtxOf sys i g |} ]) ∧
  (∀ a gamepads g,
      actions sys = [a] → bindings a = [SpaceMouseBinding] →
      validAt gamepads i = Some g →
      outcome (updateGamepad gamepads sys) = Normal tt ∧
      callsFor i (performed (updateGamepad gamepads sys))
      = if includes (id g) "SpaceMouse"
        then [ {| callee := a; argument := spaceMouseCtxOf sys i g |} ]
        else []).
Proof.
  split; [|split; [|split]].
  - intros g. unfold gamepadChecker, gamepadCtxOf. by destruct (includes _ _).
  - intros g. unfold gamepadChecker, spaceMouseCtxOf. by destruct (includes _ _).
  - intros a gamepads g Ha Hb Hg.
    destruct (single_binding_pass gamepads sys a GamepadBinding i Ha Hb
                gamepad_decides) as [Ho Hc].
    split; [done|]. rewrite Hc, Hg. unfold fired, gamepadChecker, gamepadCtxOf.
    cbn [fst snd]. by destruct (includes _ _).
  - intros a gamepads g Ha Hb Hg.
    destruct (single_binding_pass gamepads sys a SpaceMouseBinding i Ha Hb
                spacemouse_decides) as [Ho Hc].
    split; [done|]. rewrite Hc, Hg.
    unfold fired, gamepadChecker, spaceMouseCtxOf.
    cbn [fst snd]. by destruct (includes _ _).
Qed.

(** A pad in slot 0 and a SpaceMouse in slot 1, an action for each kind. *)
Example pad_and_spacemouse :
  performed (updateGamepad [Some (xbox lit_0_2 false); Some spaceMouse]
               (this (built [drive; orbit])))
  = [ {| callee := drive;
         argument := gamepadCtxOf (this (built [drive; orbit])) 0
                       (xbox lit_0_2 false) |};
      {| callee := orbit;
         argument := spaceMouseCtxOf (this (built [drive; orbit])) 1
                       spaceMouse |} ].
Proof. vm_compute. reflexivity. Qed.

(** ** [start] *)

Lemma start_blocked gamepads w :
  isRunning (this w) = true ∨ isBrowserSupported (this w) = false →
  start gamepads w = idle w.
Proof.
  unfold start. intros [->| ->]; [|done]. by rewrite andb_false_r.
Qed.

Lemma start_goes gamepads w :
  isBrowserSupported (this w) = true → isRunning (this w) = false →
  let pass := updateGamepad gamepads (set_isRunning true (this w)) in
  let r := start gamepads w in
  performed r = performed pass ∧
  outcome r = outcome pass ∧
  this (after r) = after pass ∧
  isRunning (this (after r)) = true ∧
  listeners (after r) = listeners w ∧
  frameRequests (after r)
  = if completed (outcome pass) then S (frameRequests w) else frameRequests w.
Proof.
  intros Hs Hr. cbv zeta. unfold start. rewrite Hs, Hr. cbn [andb negb].
  unfold update. cbn [this set_this set_isRunning isRunning].
  pose proof (updateSlots_frame gamepads (seq 0 (S (length gamepads)))
                (set_isRunning true (this w))) as (_ & Hrun & _).
  fold (updateGamepad gamepads (set_isRunning true (this w))) in Hrun.
  remember (updateGamepad gamepads (set_isRunning true (this w))) as pass.
  destruct (outcome pass) as [[]|[]]; by cbn.
Qed.

(** The pending frame of a running instance samples and requests the next
    one; after [stop] it does neither, and the loop has ended. *)
Lemma animationFrame_running gamepads w n :
  isRunning (this w) = true → frameRequests w = S n →
  outcome (updateGamepad gamepads (this w)) = Normal tt →
  frameRequests (after (animationFrame gamepads w)) = S n ∧
  performed (animationFrame gamepads w)
  = performed (updateGamepad gamepads (this w)).
Proof.
  intros Hr Hf Ho. unfold animationFrame, update. rewrite Hf. cbn [this].
  rewrite Hr, Ho. done.
Qed.

Lemma animationFrame_stopped gamepads w n :
  frameRequests w = S n →
  frameRequests (after (animationFrame gamepads (stop w))) = n ∧
  performed (animationFrame gamepads (stop w)) = [].
Proof. intros Hf. unfold animationFrame, update, stop. cbn. by rewrite Hf. Qed.

(** C6 (as it holds).  [start] is guarded: with the instance running or the
    host unsupported it changes nothing, samples nothing and requests no
    frame.  Otherwise it sets the running flag and takes the first sample
    at once, inside [start], making the calls of that pass; that pass
    completing, it requests one frame, and a second [start] right after is
    idle, so one request is pending. *)
Theorem start_is_guarded (w : World) (g1 g2 : GamepadList) :
  (isRunning (this w) = true ∨ isBrowserSupported (this w) = false →
   start g1 w = idle w) ∧
  (∀ acts, start g1 (constructor false acts) = idle (constructor false acts)) ∧
  (isBrowserSupported (this w) = true → isRunning (this w) = false →
   let pass := updateGamepad g1 (set_isRunning true (this w)) in
   let r := start g1 w in
   isRunning (this (after r)) = true ∧
   performed r = performed pass ∧
   this (after r) = after pass ∧
   (outcome pass = Normal tt →
    outcome r = Normal tt ∧
    frameRequests (after r) = S (frameRequests w) ∧
    start g2 (after r) = idle (after r) ∧
    frameRequests (after (start g2 (after r))) = S (frameRequests w))).
Proof.
  split; [apply start_blocked|]. split; [done|].
  intros Hs Hr. cbv zeta.
  destruct (start_goes g1 w Hs Hr) as (Hp & Ho & Ht & Hrun & _ & Hf).
  split; [done|]. split; [done|]. split; [done|].
  intros Hpass. rewrite Hpass in Ho, Hf. cbn in Hf.
  split; [done|]. split; [done|].
  rewrite (start_blocked g2 (after (start g1 w))) by (by left). done.
Qed.

Lemma start_is_guarded_witness :
  isBrowserSupported (this (built [drive])) = true ∧
  isRunning (this (built [drive])) = false ∧
  frameRequests
    (after (start [Some (xbox lit_0_5 false)]
              (after (start [Some (xbox lit_0_2 false)] (built [drive])))))
  = 1.
Proof.
  split; [reflexivity|]. split; [reflexivity|].
  destruct (start_is_guarded (built [drive]) [Some (xbox lit_0_2 false)]
              [Some (xbox lit_0_5 false)]) as (_ & _ & H).
  destruct (H eq_refl eq_refl) as (_ & _ & _ & H').
  destruct H' as (_ & _ & _ & H'); [vm_compute; reflexivity|].
  exact H'.
Defined.

(** [start] does not leave the first sample to a scheduled frame: started
    with a pad connected and an action bound to it, it has made the call
    when it returns. *)
Lemma start_samples_at_once :
  ¬ (let r := start [Some (xbox lit_0_2 false)] (built [drive]) in
     isRunning (this (after r)) = true ∧
     frameRequests (after r) = 1 ∧
     performed r = []).
Proof. intros (_ & _ & H). vm_compute in H. discriminate H. Qed.

(** ** Keyboard events *)

Lemma keyDown_decides code b : decides (keyDownChecker code) b = true.
Proof.
  unfold decides, keyDownChecker. destruct b as [c d| | | | |]; try done.
  by destruct (_ && _).
Qed.

Lemma keyUp_decides code b : decides (keyUpChecker code) b = true.
Proof.
  unfold decides, keyUpChecker. destruct b as [c d| | | | |]; try done.
  by destruct (_ && _).
Qed.

Lemma fired_keyDown code ab :
  fired (keyDownChecker code) ab
  = if keyMatches true code ab.2
    then [ {| callee := ab.1; argument := keyboardCtx |} ] else [].
Proof.
  unfold fired, keyDownChecker, keyMatches.
  destruct ab as [a [c d| | | | |]]; cbn; try done.
  by destruct d, (bool_decide (c = code)).
Qed.

Lemma fired_keyUp code ab :
  fired (keyUpChecker code) ab
  = if keyMatches false code ab.2
    then [ {| callee := ab.1; argument := keyboardCtx |} ] else [].
Proof.
  unfold fired, keyUpChecker, keyMatches.
  destruct ab as [a [c d| | | | |]]; cbn; try done.
  by destruct d, (bool_decide (c = code)).
Qed.

Lemma list_bind_ext {A B} (f g : A → list B) (l : list A) :
  (∀ x, f x = g x) → l ≫= f = l ≫= g.
Proof. intros H. induction l as [|x l IH]; [done|]. cbn. by rewrite H, IH. Qed.

Lemma onKeyDown_calls code sys :
  onKeyDown code sys = (keyCalls true code (actions sys), Normal tt).
Proof.
  unfold onKeyDown. rewrite checkActionsBindings_agenda.
  rewrite forOf_decided by (apply Forall_forall; intros; apply keyDown_decides).
  unfold keyCalls. f_equal. apply list_bind_ext, fired_keyDown.
Qed.

Lemma onKeyUp_calls code sys :
  onKeyUp code sys = (keyCalls false code (actions sys), Normal tt).
Proof.
  unfold onKeyUp. rewrite checkActionsBindings_agenda.
  rewrite forOf_decided by (apply Forall_forall; intros; apply keyUp_decides).
  unfold keyCalls. f_equal. apply list_bind_ext, fired_keyUp.
Qed.

Lemma elem_of_keyCalls down code acts c :
  c ∈ keyCalls down code acts ↔
  argument c = keyboardCtx ∧ callee c ∈ acts ∧
  KeyboardBinding code down ∈ bindings (callee c).
Proof.
  unfold keyCalls. rewrite list_elem_of_bind. split.
  - intros ([a b] & Hc & Hab). apply elem_of_agenda in Hab as [Ha Hb].
    cbn in Hc. destruct (keyMatches down code b) eqn:E;
      [|by apply elem_of_nil in Hc].
    apply list_elem_of_singleton in Hc as ->. cbn.
    destruct b as [c' d'| | | | |]; try done. cbn in E.
    apply andb_true_iff in E as [->%bool_decide_eq_true ->%bool_decide_eq_true].
    done.
  - intros (Harg & Ha & Hb). exists (callee c, KeyboardBinding code down).
    split; [|by apply elem_of_agenda].
    cbn. rewrite !bool_decide_eq_true_2 by done. cbn.
    destruct c as [a ctx]. cbn in *. subst ctx. by apply list_elem_of_singleton.
Qed.

Lemma keyboard_decides s j g code d :
  decides (gamepadChecker s j g) (KeyboardBinding code d) = true.
Proof. done. Qed.




(** "Space" going down, then up, with an action bound to both edges and
    one bound to a button. *)
Example space_down_then_up :
  onKeyDown "Space" (this (built [jump; estop]))
  = ([ {| callee := jump; argument := keyboardCtx |} ], Normal tt) ∧
  onKeyUp "Space" (this (built [jump; estop]))
  = ([ {| callee := jump; argument := keyboardCtx |} ], Normal tt) ∧
  onKeyDown "Enter" (this (built [jump; estop])) = ([], Normal tt).
Proof. repeat split. Qed.

(** ** A binding of unknown type *)

Lemma unknown_undecided s j g tag :
  decides (gamepadChecker s j g) (UnknownBinding tag) = false.
Proof. done. Qed.

(** C8 (as it holds).  In a sampling pass the check of a binding of unknown
    type yields no verdict; the binding leads to no call, but reading the
    verdict throws a [TypeError]: the calls made before it stand, the
    bindings and actions after it are not checked and the sample is not
    stored.  When the pass works on no device the binding is not checked
    and the pass completes.  The two keyboard handlers refuse the binding
    and go on to the end of the action list. *)
Theorem unknown_binding_aborts_the_pass
    (sys : InputSystem) (gamepads : GamepadList) (tag : string) :
  (∀ i g, gamepadChecker sys i g (UnknownBinding tag) = Normal None) ∧
  (∀ i g pre a post,
      validAt gamepads i = Some g →
      agenda (actions sys) = pre ++ (a, UnknownBinding tag) :: post →
      Forall (λ ab, decides (gamepadChecker sys i g) ab.2 = true) pre →
      updateSlot gamepads i sys
      = {| outcome := Throw TypeError; after := sys;
           performed := pre ≫= fired (gamepadChecker sys i g) |}) ∧
  ((∀ i, validAt gamepads i = None) →
   outcome (updateGamepad gamepads sys) = Normal tt ∧
   performed (updateGamepad gamepads sys) = []) ∧
  (∀ code,
      keyDownChecker code (UnknownBinding tag) = Normal (Some (false, emptyCtx)) ∧
      keyUpChecker code (UnknownBinding tag) = Normal (Some (false, emptyCtx)) ∧
      (onKeyDown code sys).2 = Normal tt ∧ (onKeyUp code sys).2 = Normal tt).
Proof.
  split; [done|]. split; [|split].
  - intros i g pre a post Hg Hag Hpre.
    rewrite (updateSlot_work _ _ _ g) by done.
    rewrite checkActionsBindings_agenda, Hag.
    by rewrite forOf_undecided.
  - intros Hnone.
    destruct (updateGamepad_complete gamepads sys) as (Ho & _ & _ & _).
    { intros i. by rewrite updateSlot_skip. }
    split; [done|]. apply elem_of_nil_inv. intros c Hc.
    apply updateSlots_calls in Hc as (i & g & _ & Hg & _).
    by rewrite Hnone in Hg.
  - intros code. by rewrite onKeyDown_calls, onKeyUp_calls.
Qed.

Lemma unknown_binding_aborts_the_pass_witness :
  validAt [Some (xbox lit_0_2 false)] 0 = Some (xbox lit_0_2 false) ∧
  agenda (actions (this (built [drive; odd; estop])))
  = [(drive, GamepadBinding)] ++ (odd, UnknownBinding "mouse")
      :: [(estop, GamepadBtnBinding 0)] ∧
  updateSlot [Some (xbox lit_0_2 false)] 0 (this (built [drive; odd; estop]))
  = {| outcome := Throw TypeError;
       after := this (built [drive; odd; estop]);
       performed :=
         [(drive, GamepadBinding)]
           ≫= fired (gamepadChecker (this (built [drive; odd; estop])) 0
                       (xbox lit_0_2 false)) |}.
Proof.
  split; [reflexivity|]. split; [reflexivity|].
  destruct (unknown_binding_aborts_the_pass (this (built [drive; odd; estop]))
              [Some (xbox lit_0_2 false)] "mouse") as (_ & H & _).
  apply (H 0 (xbox lit_0_2 false) [(drive, GamepadBinding)] odd
           [(estop, GamepadBtnBinding 0)]); [reflexivity|reflexivity|].
  repeat constructor.
Defined.

(** A pass that meets a binding of unknown type while working on a device
    raises an error, and the action after it is not called. *)
Lemma unknown_binding_raises :
  ¬ (let r := updateGamepad [Some (xbox lit_0_2 false)]
                (this (built [odd; drive])) in
     outcome r = Normal tt ∧
     performed r
     = performed (updateGamepad [Some (xbox lit_0_2 false)]
                    (this (built [drive])))).
Proof. intros [H _]. vm_compute in H. discriminate H. Qed.

(** ** The index one past the end *)

Lemma updateSlots_snoc_skip gamepads indices n sys :
  (∀ s, updateSlot gamepads n s
        = {| outcome := Normal tt; after := s; performed := [] |}) →
  updateSlots gamepads (indices ++ [n]) sys = updateSlots gamepads indices sys.
Proof.
  intros Hskip. revert sys. induction indices as [|i rest IH]; intros sys.
  - cbn. by rewrite Hskip.
  - cbn [app updateSlots].
    destruct (outcome (updateSlot gamepads i sys)) as [[]|e]; [|done].
    by rewrite IH.
Qed.

(** C9.  The loop of [updateGamepad] also visits the index
    [gamepads.length]; the slot collection holds nothing there, so the
    guard skips it: the pass is the pass over the indices below the length.
    Every call of a pass is made for an index below the length whose slot
    holds a device that passes [isInvalidGamepad], and the history arrays
    change at such indices only. *)
Theorem extra_index_is_skipped (gamepads : GamepadList) (sys : InputSystem) :
  let r := updateGamepad gamepads sys in
  gamepads !! length gamepads = None ∧
  (∀ s, updateSlot gamepads (length gamepads) s
        = {| outcome := Normal tt; after := s; performed := [] |}) ∧
  r = updateSlots gamepads (seq 0 (length gamepads)) sys ∧
  (∀ c, c ∈ performed r →
        ∃ i g, i < length gamepads ∧ gamepads !! i = Some (Some g) ∧
               isInvalidGamepad g = false ∧
               ctxIndex (argument c) = Some i) ∧
  (∀ j, lastGamepad (after r) !! j ≠ lastGamepad sys !! j ∨
        lastTimestamp (after r) !! j ≠ lastTimestamp sys !! j →
        j < length gamepads ∧
        ∃ g, gamepads !! j = Some (Some g) ∧ isInvalidGamepad g = false).
Proof.
  cbv zeta.
  assert (gamepads !! length gamepads = None) as Hend
    by (by apply lookup_ge_None).
  assert (∀ s, updateSlot gamepads (length gamepads) s
               = {| outcome := Normal tt; after := s; performed := [] |})
    as Hskip.
  { intros s. apply updateSlot_skip. unfold validAt. by rewrite Hend. }
  split; [done|]. split; [done|]. split; [|split].
  - unfold updateGamepad. rewrite seq_S. by apply updateSlots_snoc_skip.
  - intros c Hc.
    apply updateSlots_calls in Hc as (i & g & _ & Hg & Hi).
    exists i, g. split; [by eapply validAt_lt|].
    by apply validAt_Some in Hg as [? ?].
  - intros j Hj.
    pose proof (updateSlots_frame gamepads (seq 0 (S (length gamepads))) sys)
      as (_ & _ & _ & Hf).
    destruct (validAt gamepads j) as [g|] eqn:E.
    + split; [by eapply validAt_lt|]. exists g. by apply validAt_Some.
    + destruct (Hf j) as [Hg Ht]; [by right|].
      unfold updateGamepad in Hj. by destruct Hj.
Qed.

(** ** [mapGamepadToJoy] *)

Lemma literals_are_nearest :
  lit_0_09 = SFdiv prec emax (ofZ 9) (ofZ 100) ∧
  lit_0_1 = SFdiv prec emax (ofZ 1) (ofZ 10) ∧
  lit_0_2 = SFdiv prec emax (ofZ 2) (ofZ 10) ∧
  lit_0_5 = SFdiv prec emax (ofZ 5) (ofZ 10) ∧
  lit_1_0 = ofZ 1 ∧ lit_neg_1_0 = SFopp (ofZ 1) ∧
  is_binary64 lit_0_09 = true ∧ is_binary64 lit_0_1 = true.
Proof. repeat split; vm_compute; reflexivity. Qed.

Lemma SFcompare_antisym (x y : number) :
  SFcompare y x = CompOpp <$> SFcompare x y.
Proof.
  unfold SFcompare.
  destruct x as [sx|sx| |sx mx ex], y as [sy|sy| |sy my ey]; try done;
    try (by destruct sx); try (by destruct sy); try (by destruct sx, sy).
  pose proof (Pos.compare_cont_antisym mx my Eq) as Hm. cbn [CompOpp] in Hm.
  destruct sx, sy; try done; cbn; f_equal;
    rewrite (Z.compare_antisym ex ey);
    destruct (ex ?= ey)%Z; cbn; try done;
    rewrite <- Hm; by destruct (Pos.compare_cont Eq mx my).
Qed.

(** [x >= c] rules out [x < c]. *)
Lemma ge_not_lt (x c : number) : ge x c = true → lt x c = false.
Proof.
  unfold ge, lt, SFleb, SFltb. rewrite (SFcompare_antisym x c).
  by destruct (SFcompare x c) as [[]|].
Qed.

(** A negative number is below 0.09. *)
Lemma negative_lt_0_09 (x : number) : lt x lit_0_0 = true → lt x lit_0_09 = true.
Proof.
  unfold lt, SFltb, SFcompare, lit_0_0, lit_0_09.
  destruct x as [s|s| |s m e]; try done; by destruct s.
Qed.

(** C10.  [mapGamepadToJoy] keeps the number of axes and maps each axis
    value [x]: to 0.0 when [x < 0.09], which holds of every negative [x];
    to [x] itself when [x >= 0.09].  An axis at -1.0 is reported as 0.0. *)
Theorem mapGamepadToJoy_zeroes_axes_below_threshold
    (now joySeqId : Z) (g : Gamepad) :
  let joy := (GamepadUtils.mapGamepadToJoy now joySeqId g).1 in
  length (GamepadUtils.joy_axes joy) = length (axes g) ∧
  (∀ n x, axes g !! n = Some x →
          (lt x lit_0_09 = true →
           GamepadUtils.joy_axes joy !! n = Some lit_0_0) ∧
          (lt x lit_0_0 = true → lt x lit_0_09 = true) ∧
          (ge x lit_0_09 = true →
           GamepadUtils.joy_axes joy !! n = Some x)) ∧
  (∀ n, axes g !! n = Some lit_neg_1_0 →
        GamepadUtils.joy_axes joy !! n = Some lit_0_0).
Proof.
  cbn. split; [by rewrite length_fmap|]. split.
  - intros n x Hx. rewrite list_lookup_fmap, Hx. cbn.
    unfold GamepadUtils.mapAxis. split; [by intros ->|].
    split; [apply negative_lt_0_09|].
    intros Hge. by rewrite (ge_not_lt x lit_0_09 Hge).
  - intros n Hx. by rewrite list_lookup_fmap, Hx.
Qed.

(** ** The arrays of a [spacemouse] context *)

Section Snapshot.
Import Refs.

Lemma spread_Some h array h' l :
  spread h array = Some (h', l) →
  ∃ elems, h !! array = Some (ArrayObj elems) ∧ h !! l = None ∧
           h' = <[l := ArrayObj elems]> h.
Proof.
  unfold spread. destruct (h !! array) as [[elems| |]|] eqn:E; try done.
  intros [= <- <-]. exists elems. split; [done|]. split; [|done].
  apply not_elem_of_dom, is_fresh.
Qed.

(** A new array object changes what no reference shows. *)
Lemma deref_insert_array h l elems v :
  h !! l = None → deref (<[l := ArrayObj elems]> h) v = deref h v.
Proof.
  intros Hl. destruct v as [x|l']; [done|]. cbn.
  destruct (decide (l = l')) as [<-|Hne].
  - by rewrite lookup_insert_eq, Hl.
  - by rewrite lookup_insert_ne.
Qed.

Lemma mutate_lookup_other m h l :
  target m ≠ l → mutate m h !! l = h !! l.
Proof.
  destruct m as [array elems|button p v]; cbn; intros Hne.
  - destruct (h !! array) as [[]|]; try done. by rewrite lookup_insert_ne.
  - destruct (h !! button) as [[]|]; try done. by rewrite lookup_insert_ne.
Qed.

Lemma mutateAll_lookup_other ms h l :
  Forall (λ m, target m ≠ l) ms → mutateAll ms h !! l = h !! l.
Proof.
  unfold mutateAll. intros Hms. revert h.
  induction Hms as [|m ms Hm _ IH]; intros h; [done|].
  cbn. by rewrite IH, mutate_lookup_other.
Qed.

(** Writing the elements of an array changes what no reference shows. *)
Lemma deref_array_write m h v :
  isArrayWrite m = true → deref (mutate m h) v = deref h v.
Proof.
  destruct m as [array elems|]; [intros _|done].
  destruct v as [x|l]; [done|]. cbn.
  destruct (h !! array) as [[old| |]|] eqn:E; try done.
  destruct (decide (array = l)) as [<-|Hne].
  - by rewrite lookup_insert_eq, E.
  - by rewrite lookup_insert_ne.
Qed.

Lemma deref_array_writes ms h v :
  Forall (λ m, isArrayWrite m = true) ms → deref (mutateAll ms h) v = deref h v.
Proof.
  unfold mutateAll. intros Hms. revert h.
  induction Hms as [|m ms Hm _ IH]; intros h; [done|].
  cbn. by rewrite IH, deref_array_write.
Qed.

(** An array read as numbers holds numbers. *)
Lemma numbers_only h (xs : list value) ns :
  mapM asNumber (deref h <$> xs) = Some ns → xs = Num <$> ns.
Proof.
  revert ns. induction xs as [|v xs IH]; intros ns; cbn.
  - by intros [= <-].
  - destruct v as [x|l]; cbn.
    + destruct (mapM asNumber (deref h <$> xs)) as [ns'|]; [|done]. cbn.
      intros [= <-]. cbn. by rewrite (IH ns').
    + by destruct (h !! l) as [[]|].
Qed.

Lemma deref_numbers h (ns : list number) :
  deref h <$> (Num <$> ns) = SNumber <$> ns.
Proof. by rewrite <- list_fmap_compose. Qed.

(** What the [spacemouse] case builds for a well-formed SpaceMouse device
    object: two new arrays holding the elements of the device's. *)
Lemma spacemouseCase_spec h g gp :
  readGamepad h g = Some gp → includes (id gp) "SpaceMouse" = true →
  ∃ ax bt ts bs a b,
    h !! g = Some (GamepadObj (id gp) ax bt ts) ∧
    h !! ax = Some (ArrayObj (Num <$> axes gp)) ∧
    h !! bt = Some (ArrayObj bs) ∧
    mapM asButton (deref h <$> bs) = Some (buttons gp) ∧
    h !! a = None ∧ h !! b = None ∧ a ≠ b ∧
    spacemouseCase h g
    = Some (<[b := ArrayObj bs]> (<[a := ArrayObj (Num <$> axes gp)]> h),
            Some {| ctx_id := id gp; ctx_gamepad := g;
                    ctx_axes := a; ctx_buttons := b |}).
Proof.
  unfold readGamepad, spacemouseCase, readArray, spread.
  destruct (h !! g) as [[| |id ax bt ts]|]; try done.
  destruct (h !! ax) as [[xs| |]|] eqn:Eax; try done. cbn.
  destruct (h !! bt) as [[bs| |]|] eqn:Ebt; try done. cbn.
  destruct (mapM asNumber _) as [ns|] eqn:Ens; [|done]. cbn.
  destruct (mapM asButton _) as [bts|] eqn:Ebts; [|done]. cbn.
  intros [= <-]. cbn. intros ->. cbn.
  apply numbers_only in Ens as ->.
  set (a := fresh (dom h)).
  assert (h !! a = None) as Ha by apply not_elem_of_dom, is_fresh.
  assert (a ≠ bt) as Habt by (intros Heq; by rewrite Heq, Ebt in Ha).
  rewrite lookup_insert_ne by done. rewrite Ebt. cbn.
  set (b := fresh (dom (<[a:=ArrayObj (Num <$> ns)]> h))).
  assert (<[a:=ArrayObj (Num <$> ns)]> h !! b = None) as Hb
    by apply not_elem_of_dom, is_fresh.
  assert (a ≠ b) as Hab by (intros Heq; by rewrite <- Heq, lookup_insert_eq in Hb).
  rewrite lookup_insert_ne in Hb by done.
  by exists ax, bt, ts, bs, a, b.
Qed.

(** C4 (as it holds).  For a well-formed SpaceMouse device object the
    [spacemouse] case hands over two new array objects that show the
    device's axis and button samples as they are at that time.  Whatever is
    done afterwards to the objects that existed then — the device's arrays
    rewritten, its button objects updated in place — the two arrays keep
    their elements: the same numbers, the same button objects.  So the axis
    values read from the context stay as they were, and so do the button
    values as long as only arrays are written; a button object updated in
    place is not covered: the context holds that same object. *)
Theorem spacemouse_context_copies_the_arrays h g gp :
  readGamepad h g = Some gp → includes (id gp) "SpaceMouse" = true →
  ∃ h' c,
    spacemouseCase h g = Some (h', Some c) ∧
    readArray h' (ctx_axes c) ≫= mapM asNumber = Some (axes gp) ∧
    readArray h' (ctx_buttons c) ≫= mapM asButton = Some (buttons gp) ∧
    ∀ ms, Forall (λ m, target m ∈ dom h) ms →
          elements (mutateAll ms h') (ctx_axes c) = elements h' (ctx_axes c) ∧
          elements (mutateAll ms h') (ctx_buttons c)
          = elements h' (ctx_buttons c) ∧
          readArray (mutateAll ms h') (ctx_axes c) = readArray h' (ctx_axes c) ∧
          (Forall (λ m, isArrayWrite m = true) ms →
           readArray (mutateAll ms h') (ctx_buttons c)
           = readArray h' (ctx_buttons c)).
Proof.
  intros Hgp Hsm.
  destruct (spacemouseCase_spec h g gp Hgp Hsm)
    as (ax & bt & ts & bs & a & b & Hg & Hax & Hbt & Hbs & Ha & Hb & Hab & Hcase).
  eexists _, _. split; [exact Hcase|]. cbn [ctx_axes ctx_buttons].
  set (h' := <[b:=ArrayObj bs]> (<[a:=ArrayObj (Num <$> axes gp)]> h)).
  assert (h' !! a = Some (ArrayObj (Num <$> axes gp))) as Ha'.
  { unfold h'. rewrite lookup_insert_ne by done. apply lookup_insert_eq. }
  assert (h' !! b = Some (ArrayObj bs)) as Hb' by apply lookup_insert_eq.
  assert (∀ v, deref h' v = deref h v) as Hderef.
  { intros v. unfold h'. rewrite deref_insert_array.
    - by apply deref_insert_array.
    - by rewrite lookup_insert_ne. }
  split; [|split].
  - unfold readArray. rewrite Ha'. cbn. rewrite deref_numbers.
    clear. induction (axes gp) as [|x xs IH]; [done|]. cbn. by rewrite IH.
  - unfold readArray. rewrite Hb'. cbn.
    rewrite (list_fmap_ext (deref h') (deref h) bs) by done. done.
  - intros ms Hms.
    assert (Forall (λ m, target m ≠ a) ms) as Hna.
    { eapply Forall_impl; [exact Hms|]. intros m Hm Heq. cbv beta in Hm.
      rewrite Heq in Hm.
      apply elem_of_dom in Hm as [? Hm]. by rewrite Ha in Hm. }
    assert (Forall (λ m, target m ≠ b) ms) as Hnb.
    { eapply Forall_impl; [exact Hms|]. intros m Hm Heq. cbv beta in Hm.
      rewrite Heq in Hm.
      apply elem_of_dom in Hm as [? Hm]. by rewrite Hb in Hm. }
    unfold elements, readArray.
    rewrite !mutateAll_lookup_other by done. rewrite Ha', Hb'.
    split; [done|]. split; [done|]. split.
    + by rewrite !deref_numbers.
    + intros Hw. f_equal. apply list_fmap_ext. intros _ v _.
      by apply deref_array_writes.
Qed.
End Snapshot.

Lemma spacemouse_context_copies_the_arrays_witness :
  Refs.readGamepad liveHeap 1%positive = Some liveSample ∧
  includes (id liveSample) "SpaceMouse" = true ∧
  ∃ h' c,
    Refs.spacemouseCase liveHeap 1%positive = Some (h', Some c) ∧
    Refs.readArray (Refs.mutateAll [Refs.SetElements 2%positive [Refs.Num lit_0_5]] h')
      (Refs.ctx_axes c)
    = Refs.readArray h' (Refs.ctx_axes c).
Proof.
  split; [vm_compute; reflexivity|]. split; [reflexivity|].
  destruct (spacemouse_context_copies_the_arrays liveHeap 1%positive liveSample)
    as (h' & c & Hcase & _ & _ & Hlater);
    [vm_compute; reflexivity|reflexivity|].
  exists h', c. split; [exact Hcase|].
  destruct (Hlater [Refs.SetElements 2%positive [Refs.Num lit_0_5]]) as (_ & _ & H & _);
    [|exact H].
  repeat constructor.
Defined.

(** The button object of the device is the button object of the context:
    pressed after the dispatch, it reads as pressed through the context. *)
Lemma spacemouse_buttons_follow_the_live_object :
  ¬ (∀ h' c ms,
        Refs.spacemouseCase liveHeap 1%positive = Some (h', Some c) →
        Forall (λ m, Refs.target m ∈ dom liveHeap) ms →
        Refs.readArray (Refs.mutateAll ms h') (Refs.ctx_buttons c)
        = Refs.readArray h' (Refs.ctx_buttons c)).
Proof.
  intros H.
  destruct (Refs.spacemouseCase liveHeap 1%positive) as [[h' [c|]]|] eqn:E;
    try (vm_compute in E; discriminate E).
  specialize (H h' c [Refs.SetButton 4%positive true lit_1_0] eq_refl).
  vm_compute in E. injection E as <- <-.
  assert (Forall (λ m, Refs.target m ∈ dom liveHeap)
            [Refs.SetButton 4%positive true lit_1_0]) as Hm.
  { repeat constructor. }
  specialize (H Hm). vm_compute in H. discriminate H.
Qed.



(** * Further properties of the class *)

(** ** Devices the pass rejects *)

Lemma validAt_scrub gamepads i : validAt (scrub gamepads) i = validAt gamepads i.
Proof.
  unfold validAt, scrub, GamepadList in *. rewrite list_lookup_fmap.
  destruct (gamepads !! i) as [[g|]|]; cbn; try done.
  destruct (isInvalidGamepad g) eqn:E; cbn; [done|]. by rewrite E.
Qed.

(** A slot of the loop depends on the frame through [validAt] only. *)
Lemma updateSlot_validAt g1 g2 i sys :
  validAt g1 i = validAt g2 i → updateSlot g1 i sys = updateSlot g2 i sys.
Proof.
  intros H. destruct (validAt g1 i) as [g|] eqn:E.
  - by rewrite (updateSlot_work g1 i sys g), (updateSlot_work g2 i sys g).
  - by rewrite !updateSlot_skip.
Qed.

Lemma updateSlots_validAt g1 g2 indices sys :
  (∀ i, validAt g1 i = validAt g2 i) →
  updateSlots g1 indices sys = updateSlots g2 indices sys.
Proof.
  intros H. revert sys. induction indices as [|i rest IH]; intros sys; [done|].
  cbn. rewrite (updateSlot_validAt g1 g2) by done.
  destruct (outcome (updateSlot g2 i sys)); [|done]. by rewrite IH.
Qed.

(** X1.  A device that [isInvalidGamepad] rejects — its id contains
    "Unknown Gamepad", or it has neither axes nor buttons — counts for
    nothing in a sampling pass: the pass over a frame is the pass over the
    frame with those devices taken out of their slots, in its calls, its
    completion and the history it leaves; over a frame that holds no other
    device the pass calls nothing, changes nothing and cannot throw,
    whatever the action list. *)
Theorem rejected_devices_are_empty_slots
    (gamepads : GamepadList) (sys : InputSystem) :
  updateGamepad gamepads sys = updateGamepad (scrub gamepads) sys ∧
  (∀ i g, scrub gamepads !! i = Some (Some g) → isInvalidGamepad g = false) ∧
  (∀ i g, gamepads !! i = Some (Some g) →
          includes (id g) "Unknown Gamepad" = true ∨
          (axes g = [] ∧ buttons g = []) →
          scrub gamepads !! i = Some None) ∧
  (Forall (λ slot, slot = None) (scrub gamepads) →
   updateGamepad gamepads sys
   = {| outcome := Normal tt; after := sys; performed := [] |}).
Proof.
  split; [|split; [|split]].
  - unfold updateGamepad, scrub. rewrite length_fmap.
    apply updateSlots_validAt. intros i. symmetry. apply validAt_scrub.
  - unfold scrub, GamepadList in *. intros i g. rewrite list_lookup_fmap.
    destruct (gamepads !! i) as [[g'|]|]; cbn; try done.
    destruct (isInvalidGamepad g') eqn:E; cbn; [done|]. by intros [= <-].
  - unfold scrub, GamepadList in *. intros i g Hg Hbad.
    rewrite list_lookup_fmap, Hg. cbn.
    assert (isInvalidGamepad g = true) as ->; [|done].
    unfold isInvalidGamepad. destruct Hbad as [->|[-> ->]]; [done|].
    by rewrite orb_true_r.
  - intros Hnone.
    assert (∀ i, validAt gamepads i = None) as Hv.
    { intros i. rewrite <- validAt_scrub. unfold validAt.
      destruct (scrub gamepads !! i) as [slot|] eqn:E; [|done].
      apply list_elem_of_lookup_2 in E.
      rewrite Forall_forall in Hnone. by rewrite (Hnone slot E). }
    unfold updateGamepad. generalize (seq 0 (S (length gamepads))).
    intros indices. induction indices as [|i rest IH]; [done|].
    cbn. rewrite updateSlot_skip by done. cbn. rewrite IH. done.
Qed.

(** ** The history arrays *)

Lemma updateSlot_keeps_or_stores gamepads i sys j :
  let sys' := after (updateSlot gamepads i sys) in
  (lastGamepad sys' !! j = lastGamepad sys !! j ∧
   lastTimestamp sys' !! j = lastTimestamp sys !! j) ∨
  (∃ g, validAt gamepads j = Some g ∧ lastGamepad sys' !! j = Some g ∧
        lastTimestamp sys' !! j = Some (timestamp g)).
Proof.
  cbv zeta. destruct (decide (j = i)) as [->|Hne].
  - destruct (validAt gamepads i) as [g|] eqn:E.
    + rewrite (updateSlot_work _ _ _ g) by done.
      destruct (checkActionsBindings _ _) as [cs [[]|e]]; cbn; [|by left].
      right. exists g. by rewrite !lookup_insert_eq.
    + rewrite updateSlot_skip by done. by left.
  - left. pose proof (updateSlot_frame gamepads i sys) as (_ & _ & _ & H).
    apply H. by left.
Qed.

Lemma updateSlots_keeps_or_stores gamepads indices sys j :
  let sys' := after (updateSlots gamepads indices sys) in
  (lastGamepad sys' !! j = lastGamepad sys !! j ∧
   lastTimestamp sys' !! j = lastTimestamp sys !! j) ∨
  (∃ g, validAt gamepads j = Some g ∧ lastGamepad sys' !! j = Some g ∧
        lastTimestamp sys' !! j = Some (timestamp g)).
Proof.
  cbv zeta. revert sys. induction indices as [|i rest IH]; intros sys; cbn.
  - by left.
  - pose proof (updateSlot_keeps_or_stores gamepads i sys j) as Hslot.
    destruct (outcome (updateSlot gamepads i sys)) as [[]|e]; [|done]. cbn.
    destruct (IH (after (updateSlot gamepads i sys))) as [[Hg Ht]|Hnew];
      [|by right].
    rewrite Hg, Ht. exact Hslot.
Qed.

(** X2.  A sampling pass never clears history: whether it completes or
    throws, each slot afterwards holds either what it held before or the
    sample of the device the pass worked on there, with that sample's
    timestamp.  So a slot keeps its last sample while its device is away,
    and a slot that has a sample keeps having one. *)
Theorem history_is_kept_or_replaced
    (gamepads : GamepadList) (sys : InputSystem) (j : nat) :
  let sys' := after (updateGamepad gamepads sys) in
  ((lastGamepad sys' !! j = lastGamepad sys !! j ∧
    lastTimestamp sys' !! j = lastTimestamp sys !! j) ∨
   (∃ g, validAt gamepads j = Some g ∧ lastGamepad sys' !! j = Some g ∧
         lastTimestamp sys' !! j = Some (timestamp g))) ∧
  (validAt gamepads j = None →
   lastGamepad sys' !! j = lastGamepad sys !! j) ∧
  (is_Some (lastGamepad sys !! j) → is_Some (lastGamepad sys' !! j)).
Proof.
  cbv zeta.
  pose proof (updateSlots_keeps_or_stores gamepads
                (seq 0 (S (length gamepads))) sys j) as H.
  fold (updateGamepad gamepads sys) in H. cbv zeta in H.
  split; [exact H|]. split.
  - intros Hnone. destruct H as [[Hg _]|(g & Hv & _)]; [done|].
    by rewrite Hnone in Hv.
  - intros Hsome. destruct H as [[-> _]|(g & _ & -> & _)]; [done|by eexists].
Qed.

Lemma updateSlots_inSync gamepads indices sys :
  inSync sys → inSync (after (updateSlots gamepads indices sys)).
Proof.
  intros Hs j.
  destruct (updateSlots_keeps_or_stores gamepads indices sys j)
    as [[-> ->]|(g & _ & -> & ->)]; [apply Hs|done].
Qed.

Lemma react_this_cases e w :
  let w' := after (react e w) in
  (lastGamepad (this w') = lastGamepad (this w) ∧
   lastTimestamp (this w') = lastTimestamp (this w)) ∨
  (∃ gamepads s, lastGamepad s = lastGamepad (this w) ∧
                 lastTimestamp s = lastTimestamp (this w) ∧
                 this w' = after (updateGamepad gamepads s)).
Proof.
  cbv zeta. destruct e as [g| |acts|g|code|code|g|g]; cbn;
    try (by left); try (unfold deliver; case_bool_decide; by left).
  - unfold start. destruct (_ && _); [|by left].
    unfold update. cbn [this set_this isRunning set_isRunning].
    right. exists g, (set_isRunning true (this w)).
    split; [done|]. split; [done|].
    by destruct (outcome (updateGamepad g (set_isRunning true (this w)))).
  - unfold animationFrame. destruct (frameRequests w) as [|n]; [by left|].
    unfold update. cbn [this]. destruct (isRunning (this w)); [|by left].
    right. exists g, (this w). split; [done|]. split; [done|].
    by destruct (outcome (updateGamepad g (this w))).
Qed.

Lemma react_inSync e w : inSync (this w) → inSync (this (after (react e w))).
Proof.
  intros Hs. destruct (react_this_cases e w) as [[Hg Ht]|(g & s & Hg & Ht & ->)].
  - intros j. rewrite Hg, Ht. apply Hs.
  - apply updateSlots_inSync. intros j. rewrite Hg, Ht. apply Hs.
Qed.

Lemma reactAll_cons e es w :
  reactAll (e :: es) w
  = (performed (react e w) ++ (reactAll es (after (react e w))).1,
     (reactAll es (after (react e w))).2).
Proof. cbn. by destruct (reactAll es (after (react e w))). Qed.

(** X3.  The two history arrays never part: from construction on, through
    any series of calls to [start], [stop] and [setActionMap], of frame
    callbacks and of key and connection events, whether passes complete or
    throw, the timestamp stored for a slot is the timestamp of the sample
    stored for it, and a slot has the one exactly when it has the other. *)
Theorem timestamps_follow_samples
    (hasGetGamepads : bool) (acts : list Action) (es : list HostEvent) :
  inSync (this (reactAll es (constructor hasGetGamepads acts)).2).
Proof.
  assert (inSync (this (constructor hasGetGamepads acts))) as H by done.
  revert H. generalize (constructor hasGetGamepads acts).
  induction es as [|e es IH]; intros w Hw; [done|].
  rewrite reactAll_cons. cbn [snd]. apply IH. by apply react_inSync.
Qed.

(** ** When a pass completes *)

(** A first-seen device and an axis binding: the pass throws and the slot
    stays without history. *)
Lemma first_seen_device_throws gamepads sys i g a k :
  (a, GamepadAxisBinding k) ∈ agenda (actions sys) →
  lastGamepad sys !! i = None → validAt gamepads i = Some g →
  let r := updateGamepad gamepads sys in
  outcome r = Throw TypeError ∧ lastGamepad (after r) !! i = None ∧
  actions (after r) = actions sys.
Proof.
  intros Hax Hnone Hg. cbv zeta. unfold updateGamepad.
  assert (i ∈ seq 0 (S (length gamepads))) as Hi.
  { apply elem_of_seq. apply validAt_lt in Hg. lia. }
  revert Hi. generalize (seq 0 (S (length gamepads))). intros indices.
  revert sys Hax Hnone.
  induction indices as [|j rest IH]; intros sys Hax Hnone Hi;
    [by apply elem_of_nil in Hi|].
  cbn. pose proof (updateSlot_frame gamepads j sys) as (Ha & _ & _ & Hf).
  destruct (decide (j = i)) as [->|Hne].
  - rewrite (updateSlot_work _ _ _ g) by done.
    pose proof (forOf_throws (gamepadChecker sys i g) _ _ Hax
                  (axis_undecided sys i g k Hnone)) as Hthrow.
    rewrite checkActionsBindings_agenda.
    destruct (forOf _ _) as [cs c]. cbn in Hthrow. subst c. done.
  - apply elem_of_cons in Hi as [->|Hi]; [done|].
    destruct (Hf i) as [Hsame _]; [by left|].
    destruct (outcome (updateSlot gamepads j sys)) as [[]|[]] eqn:E.
    + cbn. destruct (IH (after (updateSlot gamepads j sys))) as (? & ? & ?);
        [by rewrite Ha|by rewrite Hsame|done|]. split; [done|]. split; [done|].
      congruence.
    + by rewrite Hsame.
Qed.

(** X4.  An action list without axis bindings and without bindings of
    unknown type makes every sampling pass safe: whatever the frame and the
    history, the pass completes, stores the sample of every device it works
    on and makes, for each slot, the calls of that slot's own checks. *)
Theorem safe_bindings_never_throw (gamepads : GamepadList) (sys : InputSystem) :
  Forall (λ ab, safeBinding ab.2 = true) (agenda (actions sys)) →
  let r := updateGamepad gamepads sys in
  outcome r = Normal tt ∧
  (∀ i, lastGamepad (after r) !! i
        = match validAt gamepads i with
          | Some g => Some g
          | None => lastGamepad sys !! i
          end) ∧
  (∀ i, callsFor i (performed r)
        = match validAt gamepads i with
          | Some g => agenda (actions sys) ≫= fired (gamepadChecker sys i g)
          | None => []
          end).
Proof.
  intros Hsafe. cbv zeta. rewrite Forall_forall in Hsafe.
  assert (∀ i g, validAt gamepads i = Some g →
                 Forall (λ ab, decides (gamepadChecker sys i g) ab.2 = true)
                   (agenda (actions sys))) as Hdec.
  { intros i g _. apply Forall_forall. intros ab Hab.
    by apply safe_decides, Hsafe. }
  destruct (updateGamepad_complete gamepads sys) as (Ho & _ & Hc & Hl).
  { intros i. apply slot_completes. intros g ab _ Hab.
    by apply safe_decides, Hsafe. }
  split; [done|]. split; [done|].
  intros i. rewrite Hc, updateSlot_performed.
  destruct (validAt gamepads i) as [g|] eqn:E; [|done].
  by rewrite checkActionsBindings_agenda, forOf_decided by (by apply Hdec).
Qed.

Lemma safe_bindings_never_throw_witness :
  Forall (λ ab, safeBinding ab.2 = true)
    (agenda (actions (this (built [drive; estop; jump])))) ∧
  outcome (updateGamepad [None; Some (xbox lit_0_5 true)]
             (this (built [drive; estop; jump]))) = Normal tt.
Proof.
  assert (Forall (λ ab, safeBinding ab.2 = true)
            (agenda (actions (this (built [drive; estop; jump]))))) as H
    by (repeat constructor).
  split; [exact H|].
  exact (proj1 (safe_bindings_never_throw [None; Some (xbox lit_0_5 true)]
                  (this (built [drive; estop; jump])) H)).
Defined.

(** X5.  With at least one axis binding and no binding of unknown type in
    the action list, a sampling pass completes exactly when every device
    it works on has a stored sample for its slot; one first-seen device
    makes the whole pass throw, and leaves that slot without a sample. *)
Theorem axis_bindings_need_history
    (gamepads : GamepadList) (sys : InputSystem) (a : Action) (k : nat) :
  (a, GamepadAxisBinding k) ∈ agenda (actions sys) →
  Forall (λ ab, isUnknown ab.2 = false) (agenda (actions sys)) →
  (outcome (updateGamepad gamepads sys) = Normal tt ↔
   ∀ i g, validAt gamepads i = Some g → is_Some (lastGamepad sys !! i)) ∧
  (∀ i g, validAt gamepads i = Some g → lastGamepad sys !! i = None →
          outcome (updateGamepad gamepads sys) = Throw TypeError ∧
          lastGamepad (after (updateGamepad gamepads sys)) !! i = None).
Proof.
  intros Hax Hknown. rewrite Forall_forall in Hknown. split; [split|].
  - intros Ho i g Hg.
    destruct (lastGamepad sys !! i) as [prev|] eqn:E; [by eexists|].
    destruct (first_seen_device_throws gamepads sys i g a k Hax E Hg)
      as (Hthrow & _). by rewrite Hthrow in Ho.
  - intros Hhist.
    destruct (updateGamepad_complete gamepads sys) as (Ho & _); [|done].
    intros i. apply slot_completes. intros g ab Hg Hab.
    apply known_decides; [by apply Hknown|by apply (Hhist i g)].
  - intros i g Hg Hnone.
    destruct (first_seen_device_throws gamepads sys i g a k Hax Hnone Hg)
      as (? & ? & _). done.
Qed.

Lemma axis_bindings_need_history_witness :
  (steer, GamepadAxisBinding 0) ∈ agenda (actions steering) ∧
  Forall (λ ab, isUnknown ab.2 = false) (agenda (actions steering)) ∧
  outcome (updateGamepad [Some (xbox lit_0_5 false)] steering) = Normal tt ∧
  outcome (updateGamepad [None; Some (xbox lit_0_5 false)] steering)
  = Throw TypeError.
Proof.
  assert ((steer, GamepadAxisBinding 0) ∈ agenda (actions steering)) as Hax
    by (repeat constructor).
  assert (Forall (λ ab, isUnknown ab.2 = false) (agenda (actions steering)))
    as Hk by (repeat constructor).
  split; [exact Hax|]. split; [exact Hk|]. split.
  - apply (axis_bindings_need_history [Some (xbox lit_0_5 false)] steering
             steer 0 Hax Hk).
    intros i g Hg. assert (i = 0) as ->.
    { apply validAt_lt in Hg. cbn in Hg. lia. }
    by eexists.
  - apply (axis_bindings_need_history [None; Some (xbox lit_0_5 false)]
             steering steer 0 Hax Hk) with (i := 1) (g := xbox lit_0_5 false);
      reflexivity.
Defined.

(** A pass that completes has stored the sample of every device it
    worked on. *)
Lemma updateSlots_normal_stores gamepads indices :
  NoDup indices →
  ∀ sys i g,
    outcome (updateSlots gamepads indices sys) = Normal tt →
    i ∈ indices → validAt gamepads i = Some g →
    lastGamepad (after (updateSlots gamepads indices sys)) !! i = Some g.
Proof.
  induction 1 as [|j rest Hj Hnd IH]; intros sys i g Ho Hi Hg;
    [by apply elem_of_nil in Hi|].
  cbn in Ho |- *.
  pose proof (updateSlot_history gamepads j sys) as Hh.
  destruct (outcome (updateSlot gamepads j sys)) as [[]|e] eqn:E;
    [|by rewrite E in Ho].
  cbn in Ho |- *. apply elem_of_cons in Hi as [->|Hi].
  - pose proof (updateSlots_frame gamepads rest
                  (after (updateSlot gamepads j sys))) as (_ & _ & _ & Hf).
    destruct (Hf j) as [-> _]; [by left|]. by rewrite Hh, Hg.
  - by apply IH.
Qed.

(** X6.  A pass that completed makes the devices it sampled safe for axis
    bindings: after it, a pass under any action list without bindings of
    unknown type, over any frame whose devices sit in slots the earlier
    frame had devices in, completes. *)
Theorem sampled_slots_are_safe_for_axes
    (g1 g2 : GamepadList) (sys : InputSystem) (acts : list Action) :
  outcome (updateGamepad g1 sys) = Normal tt →
  Forall (λ ab, isUnknown ab.2 = false) (agenda acts) →
  (∀ i, is_Some (validAt g2 i) → is_Some (validAt g1 i)) →
  outcome (updateGamepad g2 (set_actions acts (after (updateGamepad g1 sys))))
  = Normal tt.
Proof.
  intros Ho Hknown Hsub. rewrite Forall_forall in Hknown.
  destruct (updateGamepad_complete
              g2 (set_actions acts (after (updateGamepad g1 sys))))
    as (Ho2 & _); [|done].
  intros i. apply slot_completes. cbn [actions set_actions].
  intros g ab Hg Hab. apply known_decides; [by apply Hknown|].
  cbn [lastGamepad set_actions].
  destruct (Hsub i) as [g' Hg']; [by eexists|].
  exists g'. apply updateSlots_normal_stores; try done.
  - apply NoDup_seq.
  - apply elem_of_seq. apply validAt_lt in Hg'. lia.
Qed.

Lemma sampled_slots_are_safe_for_axes_witness :
  outcome (updateGamepad [Some (xbox lit_0_2 false)] (this (built [drive])))
  = Normal tt ∧
  Forall (λ ab, isUnknown ab.2 = false) (agenda [steer]) ∧
  outcome (updateGamepad [Some (xbox lit_0_5 false)]
             (set_actions [steer]
                (after (updateGamepad [Some (xbox lit_0_2 false)]
                          (this (built [drive]))))))
  = Normal tt.
Proof.
  assert (outcome (updateGamepad [Some (xbox lit_0_2 false)]
                     (this (built [drive]))) = Normal tt) as Ho
    by (vm_compute; reflexivity).
  assert (Forall (λ ab, isUnknown ab.2 = false) (agenda [steer])) as Hk
    by (repeat constructor).
  split; [exact Ho|]. split; [exact Hk|].
  apply (sampled_slots_are_safe_for_axes [Some (xbox lit_0_2 false)]
           [Some (xbox lit_0_5 false)] (this (built [drive])) [steer] Ho Hk).
  intros i [g Hg]. assert (i = 0) as ->.
  { apply validAt_lt in Hg. cbn in Hg. lia. }
  by eexists.
Defined.

(** ** Series of host events *)

Arguments updateGamepad : simpl never.

(** An invariant of the world and a property of the calls, carried over a
    series of events each of which satisfies [Q]. *)
Lemma reactAll_invariant (P : World → Prop) (Q : HostEvent → Prop)
    (R : Call → Prop) :
  (∀ e w, Q e → P w →
          P (after (react e w)) ∧ Forall R (performed (react e w))) →
  ∀ es w, Forall Q es → P w →
          P (reactAll es w).2 ∧ Forall R (reactAll es w).1.
Proof.
  intros Hstep es. induction es as [|e es IH]; intros w Hq Hw; [done|].
  apply Forall_cons in Hq as [He Hes].
  destruct (Hstep e w He Hw) as [Hw' Hcalls].
  destruct (IH (after (react e w)) Hes Hw') as [Hfin Hrest].
  rewrite reactAll_cons. cbn [fst snd]. split; [done|].
  by apply Forall_app.
Qed.

Lemma updateGamepad_fields gamepads sys :
  actions (after (updateGamepad gamepads sys)) = actions sys ∧
  isRunning (after (updateGamepad gamepads sys)) = isRunning sys ∧
  isBrowserSupported (after (updateGamepad gamepads sys))
  = isBrowserSupported sys.
Proof.
  pose proof (updateSlots_frame gamepads (seq 0 (S (length gamepads))) sys)
    as (Ha & Hr & Hb & _). done.
Qed.

(** [update] on a running instance. *)
Lemma update_running gamepads w :
  isRunning (this w) = true →
  let pass := updateGamepad gamepads (this w) in
  performed (update gamepads w) = performed pass ∧
  outcome (update gamepads w) = outcome pass ∧
  this (after (update gamepads w)) = after pass ∧
  listeners (after (update gamepads w)) = listeners w ∧
  frameRequests (after (update gamepads w))
  = if completed (outcome pass) then S (frameRequests w) else frameRequests w.
Proof.
  intros Hr. cbv zeta. unfold update. rewrite Hr.
  remember (updateGamepad gamepads (this w)) as pass.
  destruct (outcome pass) as [[]|[]]; by cbn.
Qed.

Lemma update_stopped gamepads w :
  isRunning (this w) = false →
  update gamepads w = {| outcome := Normal tt; after := w; performed := [] |}.
Proof. intros Hr. unfold update. by rewrite Hr. Qed.

Lemma deliver_after type handler w : after (deliver type handler w) = w.
Proof. unfold deliver. by case_bool_decide. Qed.

Lemma keyCalls_keyboard down code acts :
  Forall (λ c, argument c = keyboardCtx) (keyCalls down code acts).
Proof. apply Forall_forall. intros c Hc. by apply elem_of_keyCalls in Hc as [? _]. Qed.

(** The calls of an event handed to a key or connection handler. *)
Lemma deliver_calls e w :
  match e with
  | KeyDownEvent _ | KeyUpEvent _ | GamepadConnectedEvent _
  | GamepadDisconnectedEvent _ => True
  | _ => False
  end →
  after (react e w) = w ∧
  Forall (λ c, argument c = keyboardCtx) (performed (react e w)).
Proof.
  destruct e as [g| |acts|g|code|code|g|g]; try done; intros _; cbn;
    rewrite deliver_after; (split; [done|]); unfold deliver;
    case_bool_decide; try done.
  - rewrite onKeyDown_calls. apply keyCalls_keyboard.
  - rewrite onKeyUp_calls. apply keyCalls_keyboard.
Qed.

(** X7.  In a host without [navigator.getGamepads] the instance is inert:
    the constructor registers no listener at all, so that whatever series
    of calls, frame callbacks and events follows, no action is ever called
    — not for a key either — no frame is requested, the running flag stays
    off and no sample is stored. *)
Theorem unsupported_host_is_inert (acts : list Action) (es : list HostEvent) :
  let final := reactAll es (constructor false acts) in
  final.1 = [] ∧ frameRequests final.2 = 0 ∧ listeners final.2 = [] ∧
  isRunning (this final.2) = false ∧ lastGamepad (this final.2) = ∅.
Proof.
  cbv zeta.
  destruct (reactAll_invariant
              (λ w, isBrowserSupported (this w) = false ∧
                    isRunning (this w) = false ∧ frameRequests w = 0 ∧
                    listeners w = [] ∧ lastGamepad (this w) = ∅)
              (λ _, True) (λ _, False)) with (es := es)
              (w := constructor false acts) as [(_ & ? & ? & ? & ?) Hcalls].
  - intros e w _ (Hs & Hr & Hf & Hl & Hh).
    destruct e as [g| |a|g|code|code|g|g]; cbn.
    + rewrite start_blocked by (by right). done.
    + done.
    + done.
    + unfold animationFrame. rewrite Hf. done.
    + unfold deliver. rewrite Hl. done.
    + unfold deliver. rewrite Hl. done.
    + unfold deliver. rewrite Hl. done.
    + unfold deliver. rewrite Hl. done.
  - by apply Forall_true.
  - done.
  - split; [|done]. destruct (reactAll es (constructor false acts)).1 as [|c cs];
      [done|]. by apply Forall_cons in Hcalls as [[] _].
Qed.

(** X8.  The context [{ type: 'none' }] never reaches a callback: every
    call made over any series of host events, from any state, carries
    either the keyboard context or a device context with its slot index. *)
Theorem none_context_is_never_delivered (w : World) (es : list HostEvent) :
  Forall (λ c, argument c ≠ emptyCtx ∧
               (argument c = keyboardCtx ∨ is_Some (ctxIndex (argument c))))
    (reactAll es w).1.
Proof.
  assert (∀ g s, Forall (λ c, argument c ≠ emptyCtx ∧
                   (argument c = keyboardCtx ∨ is_Some (ctxIndex (argument c))))
                   (performed (updateGamepad g s))) as Hpass.
  { intros g s. apply Forall_forall. intros c Hc.
    apply updateSlots_calls in Hc as (i & _ & _ & _ & Hi).
    split; [intros Heq; by rewrite Heq in Hi|]. right. by eexists. }
  assert (∀ cs, Forall (λ c, argument c = keyboardCtx) cs →
                Forall (λ c, argument c ≠ emptyCtx ∧
                  (argument c = keyboardCtx ∨ is_Some (ctxIndex (argument c))))
                  cs) as Hkey.
  { intros cs Hcs. eapply Forall_impl; [exact Hcs|].
    intros c Hc. cbv beta in Hc. rewrite Hc. split; [done|by left]. }
  apply (reactAll_invariant (λ _, True) (λ _, True)); [|by apply Forall_true|done].
  intros e w' _ _. split; [done|].
  destruct e as [g| |a|g|code|code|g|g];
    try (by apply Hkey, deliver_calls); cbn; try done.
  - unfold start. destruct (_ && _); [|done].
    unfold update. cbn [this set_this isRunning set_isRunning].
    destruct (outcome (updateGamepad g (set_isRunning true (this w'))));
      apply Hpass.
  - unfold animationFrame. destruct (frameRequests w'); [done|].
    unfold update. cbn [this]. destruct (isRunning (this w')); [|done].
    destruct (outcome (updateGamepad g (this w'))); apply Hpass.
Qed.

(** X9.  An axis binding and a device that is there from the first sample
    on keep polling from ever getting under way: from an instance with no
    frame pending and no sample for the device's slot, over any series of
    [start], [stop], frame callbacks and events in which every sampled
    frame holds a device in that slot and the action list is not replaced,
    no frame is ever requested and the slot never gets a sample. *)
Theorem connected_device_blocks_axis_polling
    (w : World) (i : nat) (a : Action) (k : nat) (es : list HostEvent) :
  (a, GamepadAxisBinding k) ∈ agenda (actions (this w)) →
  lastGamepad (this w) !! i = None → frameRequests w = 0 →
  Forall (keepsDevice i) es →
  frameRequests (reactAll es w).2 = 0 ∧
  lastGamepad (this (reactAll es w).2) !! i = None ∧
  actions (this (reactAll es w).2) = actions (this w).
Proof.
  intros Hax Hnone Hf Hes.
  destruct (reactAll_invariant
              (λ w', actions (this w') = actions (this w) ∧
                     lastGamepad (this w') !! i = None ∧ frameRequests w' = 0)
              (keepsDevice i) (λ _, True)) with (es := es) (w := w)
    as [(? & ? & ?) _]; [|done|done|done].
  intros e w' He (Ha & Hn & Hfr). split; [|by apply Forall_true].
  destruct e as [g| |acts|g|code|code|g|g]; cbn in He |- *;
    try (by rewrite deliver_after); try done.
  - destruct He as [gi Hgi]. unfold start. destruct (_ && _); [|done].
    destruct (update_running g (set_this (set_isRunning true (this w')) w'))
      as (_ & _ & Ht & _ & Hreq); [done|].
    cbn [this set_this] in Ht, Hreq.
    destruct (first_seen_device_throws g (set_isRunning true (this w')) i gi a k)
      as (Hthrow & Hnone' & Hacts'); [by (cbn; rewrite Ha)|done|done|].
    rewrite Ht, Hreq, Hthrow. cbn. rewrite Hacts'. cbn. done.
  - unfold animationFrame. by rewrite Hfr.
Qed.

Lemma connected_device_blocks_axis_polling_witness :
  (steer, GamepadAxisBinding 0) ∈ agenda (actions (this (built [drive; steer]))) ∧
  Forall (keepsDevice 0)
    [StartCalled [Some (xbox lit_0_2 false)]; StopCalled;
     StartCalled [Some (xbox lit_0_5 false)];
     FrameCallback [Some (xbox lit_0_5 true)]] ∧
  frameRequests
    (reactAll [StartCalled [Some (xbox lit_0_2 false)]; StopCalled;
               StartCalled [Some (xbox lit_0_5 false)];
               FrameCallback [Some (xbox lit_0_5 true)]]
       (built [drive; steer])).2 = 0.
Proof.
  assert ((steer, GamepadAxisBinding 0)
          ∈ agenda (actions (this (built [drive; steer])))) as Hax
    by (repeat constructor).
  assert (Forall (keepsDevice 0)
            [StartCalled [Some (xbox lit_0_2 false)]; StopCalled;
             StartCalled [Some (xbox lit_0_5 false)];
             FrameCallback [Some (xbox lit_0_5 true)]]) as Hes.
  { repeat constructor; by eexists. }
  split; [exact Hax|]. split; [exact Hes|].
  exact (proj1 (connected_device_blocks_axis_polling (built [drive; steer]) 0
                  steer 0 _ Hax eq_refl eq_refl Hes)).
Defined.

(** X10.  An instance whose running flag is set while no frame is pending
    — the state a pass that throws in the only pending frame, or in
    [start], leaves — stays that way until [stop] is called: [start] is
    refused because the flag is set, no frame comes, so that over any
    series of events without [stop] no device is sampled again; only key
    events still call actions. *)
Theorem thrown_pass_halts_polling (w : World) (g : GamepadList) :
  (isRunning (this w) = true → frameRequests w = 1 →
   outcome (updateGamepad g (this w)) = Throw TypeError →
   isRunning (this (after (animationFrame g w))) = true ∧
   frameRequests (after (animationFrame g w)) = 0) ∧
  (isBrowserSupported (this w) = true → isRunning (this w) = false →
   outcome (updateGamepad g (set_isRunning true (this w))) = Throw TypeError →
   isRunning (this (after (start g w))) = true ∧
   frameRequests (after (start g w)) = frameRequests w) ∧
  (isRunning (this w) = true → frameRequests w = 0 →
   ∀ es, Forall (λ e, isStop e = false) es →
         isRunning (this (reactAll es w).2) = true ∧
         frameRequests (reactAll es w).2 = 0 ∧
         lastGamepad (this (reactAll es w).2) = lastGamepad (this w) ∧
         Forall (λ c, argument c = keyboardCtx) (reactAll es w).1).
Proof.
  split; [|split].
  - intros Hr Hf Ho. unfold animationFrame. rewrite Hf.
    destruct (update_running g {| this := this w; frameRequests := 0;
                                  listeners := listeners w |})
      as (_ & _ & Ht & _ & Hreq); [done|].
    cbn [this frameRequests] in Ht, Hreq. rewrite Ht, Hreq, Ho.
    destruct (updateGamepad_fields g (this w)) as (_ & -> & _). done.
  - intros Hs Hr Ho.
    destruct (start_goes g w Hs Hr) as (_ & _ & _ & Hrun & _ & Hreq).
    by rewrite Hrun, Hreq, Ho.
  - intros Hr Hf es Hes.
    destruct (reactAll_invariant
                (λ w', isRunning (this w') = true ∧ frameRequests w' = 0 ∧
                       lastGamepad (this w') = lastGamepad (this w))
                (λ e, isStop e = false)
                (λ c, argument c = keyboardCtx)) with (es := es) (w := w)
      as [(? & ? & ?) ?]; [|done|done|done].
    intros e w' He (Hr' & Hf' & Hh').
    destruct e as [g'| |acts|g'|code|code|g'|g'];
      try (match goal with
           | |- context [react ?e w'] =>
               destruct (deliver_calls e w' I) as [-> Hc]; done
           end); cbn; try done.
    + rewrite start_blocked by (by left). done.
    + unfold animationFrame. rewrite Hf'. done.
Qed.

Lemma thrown_pass_halts_polling_witness :
  isBrowserSupported (this (built [jump; steer])) = true ∧
  isRunning (this (built [jump; steer])) = false ∧
  outcome (updateGamepad [Some (xbox lit_0_2 false)]
             (set_isRunning true (this (built [jump; steer]))))
  = Throw TypeError ∧
  isRunning
    (this (after (start [Some (xbox lit_0_2 false)] (built [jump; steer]))))
  = true ∧
  frameRequests (after (start [Some (xbox lit_0_2 false)] (built [jump; steer])))
  = 0.
Proof.
  assert (outcome (updateGamepad [Some (xbox lit_0_2 false)]
            (set_isRunning true (this (built [jump; steer]))))
          = Throw TypeError) as Ho by (vm_compute; reflexivity).
  split; [reflexivity|]. split; [reflexivity|]. split; [exact Ho|].
  destruct (thrown_pass_halts_polling (built [jump; steer])
              [Some (xbox lit_0_2 false)]) as (_ & H & _).
  exact (H eq_refl eq_refl Ho).
Defined.

Lemma safe_pass_completes gamepads sys :
  Forall (λ ab, safeBinding ab.2 = true) (agenda (actions sys)) →
  outcome (updateGamepad gamepads sys) = Normal tt.
Proof.
  intros Hsafe. rewrite Forall_forall in Hsafe.
  destruct (updateGamepad_complete gamepads sys) as (Ho & _); [|done].
  intros i. apply slot_completes. intros g ab _ Hab.
  by apply safe_decides, Hsafe.
Qed.

(** Frame callbacks of a running instance whose passes complete: each one
    samples and requests the next frame. *)
Lemma frames_keep_running frames :
  ∀ w n,
    isRunning (this w) = true → frameRequests w = S n →
    Forall (λ ab, safeBinding ab.2 = true) (agenda (actions (this w))) →
    frameRequests (reactAll (FrameCallback <$> frames) w).2 = S n ∧
    isRunning (this (reactAll (FrameCallback <$> frames) w).2) = true.
Proof.
  induction frames as [|g frames IH]; intros w n Hr Hf Hsafe; [done|].
  cbn [fmap list_fmap]. rewrite reactAll_cons. cbn [snd react].
  unfold animationFrame. rewrite Hf.
  set (w0 := {| this := this w; frameRequests := n; listeners := listeners w |}).
  destruct (update_running g w0) as (_ & _ & Ht & _ & Hreq); [done|].
  cbn [this frameRequests w0] in Ht, Hreq.
  rewrite (safe_pass_completes g (this w) Hsafe) in Hreq. cbn in Hreq.
  destruct (updateGamepad_fields g (this w)) as (Ha & Hrun & _).
  apply IH; [by rewrite Ht, Hrun|done|by rewrite Ht, Ha].
Qed.

(** X11.  [stop] does not cancel the frame already requested, and [start]
    right after it requests another: [start], [stop], [start] within one
    frame leaves two frame requests pending (the action list being safe,
    so that the passes complete), and frame callbacks keep it at two: both
    loops go on sampling, every frame from then on. *)
Theorem stop_then_start_doubles_the_loop
    (w : World) (g1 g2 : GamepadList) (frames : list GamepadList) :
  isBrowserSupported (this w) = true → isRunning (this w) = false →
  Forall (λ ab, safeBinding ab.2 = true) (agenda (actions (this w))) →
  let w2 := (reactAll [StartCalled g1; StopCalled; StartCalled g2] w).2 in
  frameRequests w2 = S (S (frameRequests w)) ∧
  isRunning (this w2) = true ∧
  frameRequests (reactAll (FrameCallback <$> frames) w2).2
  = S (S (frameRequests w)).
Proof.
  intros Hs Hr Hsafe. cbv zeta. cbn [reactAll react snd after].
  destruct (start_goes g1 w Hs Hr) as (_ & _ & Ht1 & Hrun1 & _ & Hf1).
  rewrite safe_pass_completes in Hf1 by done. cbn in Hf1.
  set (w1 := after (start g1 w)) in *.
  destruct (updateGamepad_fields g1 (set_isRunning true (this w)))
    as (Ha1 & _ & Hb1).
  assert (actions (this w1) = actions (this w)) as Hacts1 by (by rewrite Ht1, Ha1).
  assert (isBrowserSupported (this w1) = true) as Hs1 by (by rewrite Ht1, Hb1).
  destruct (start_goes g2 (stop w1)) as (_ & _ & Ht2 & Hrun2 & _ & Hf2);
    [done|done|].
  rewrite safe_pass_completes in Hf2 by (cbn; by rewrite Hacts1).
  cbn in Hf2. rewrite Hf1 in Hf2.
  set (w2 := after (start g2 (stop w1))) in *.
  destruct (updateGamepad_fields g2 (set_isRunning true (this (stop w1))))
    as (Ha2 & _ & _).
  split; [done|]. split; [done|].
  apply frames_keep_running; [done|done|].
  rewrite Ht2, Ha2. cbn. by rewrite Hacts1.
Qed.

Lemma stop_then_start_doubles_the_loop_witness :
  isBrowserSupported (this (built [drive; estop])) = true ∧
  isRunning (this (built [drive; estop])) = false ∧
  Forall (λ ab, safeBinding ab.2 = true)
    (agenda (actions (this (built [drive; estop])))) ∧
  frameRequests
    (reactAll [StartCalled [Some (xbox lit_0_2 false)]; StopCalled;
               StartCalled [Some (xbox lit_0_2 true)]]
       (built [drive; estop])).2 = 2.
Proof.
  assert (Forall (λ ab, safeBinding ab.2 = true)
            (agenda (actions (this (built [drive; estop]))))) as Hsafe
    by (repeat constructor).
  split; [reflexivity|]. split; [reflexivity|]. split; [exact Hsafe|].
  exact (proj1 (stop_then_start_doubles_the_loop (built [drive; estop])
                  [Some (xbox lit_0_2 false)] [Some (xbox lit_0_2 true)] []
                  eq_refl eq_refl Hsafe)).
Defined.

Lemma react_frameRequests e w :
  frameRequests (after (react e w))
  ≤ frameRequests w + (if isStart e then 1 else 0).
Proof.
  destruct e as [g| |acts|g|code|code|g|g]; cbn;
    try (rewrite deliver_after); try lia.
  - unfold start. destruct (_ && _); [|cbn; lia].
    unfold update. cbn [this set_this isRunning set_isRunning].
    destruct (outcome (updateGamepad g (set_isRunning true (this w))));
      cbn; lia.
  - unfold animationFrame. destruct (frameRequests w) as [|n] eqn:E;
      [cbn; lia|].
    unfold update. cbn [this]. destruct (isRunning (this w)); [|cbn; lia].
    destruct (outcome (updateGamepad g (this w))); cbn; lia.
Qed.

(** X12.  Only [start] adds a polling loop: over any series of host events
    the number of pending frame requests grows by at most the number of
    calls to [start] in the series; a frame callback consumes its request
    and requests at most one. *)
Theorem frame_requests_are_bounded_by_starts (w : World) (es : list HostEvent) :
  frameRequests (reactAll es w).2
  ≤ frameRequests w + length (filter (λ e, isStart e = true) es).
Proof.
  revert w. induction es as [|e es IH]; intros w; [cbn; lia|].
  rewrite reactAll_cons. cbn [snd].
  pose proof (IH (after (react e w))) as H1.
  pose proof (react_frameRequests e w) as H2.
  destruct (isStart e) eqn:E.
  - rewrite filter_cons_True by done. cbn [length]. lia.
  - rewrite filter_cons_False by (by rewrite E). lia.
Qed.

(** X13.  [stop] ends polling within the frames already requested: after
    it, each frame callback finds the flag off, samples nothing, calls
    nothing and requests nothing, so the pending requests run out. *)
Theorem stop_lets_the_loops_run_out (w : World) (frames : list GamepadList) :
  let final := reactAll (StopCalled :: (FrameCallback <$> frames)) w in
  final.1 = [] ∧ this final.2 = this (stop w) ∧
  frameRequests final.2 = frameRequests w - length frames.
Proof.
  cbv zeta. rewrite reactAll_cons. cbn [react performed after app].
  assert (∀ w', isRunning (this w') = false →
            (reactAll (FrameCallback <$> frames) w').1 = [] ∧
            this (reactAll (FrameCallback <$> frames) w').2 = this w' ∧
            frameRequests (reactAll (FrameCallback <$> frames) w').2
            = frameRequests w' - length frames) as H.
  { induction frames as [|g frames IH]; intros w' Hr; [cbn; split; [done|]; split; [done|lia]|].
    cbn [fmap list_fmap]. rewrite reactAll_cons. cbn [react fst snd].
    unfold animationFrame. destruct (frameRequests w') as [|n] eqn:Hf.
    - cbn [after performed app]. destruct (IH w' Hr) as (-> & -> & ->).
      rewrite Hf. done.
    - rewrite update_stopped by done. cbn [after performed app].
      destruct (IH {| this := this w'; frameRequests := n;
                      listeners := listeners w' |} Hr) as (-> & -> & ->).
      done. }
  apply (H (stop w)). done.
Qed.

(** * Further properties of [mapGamepadToJoy] *)

Lemma digits2_pos_bound (m : positive) :
  (Z.pos m < 2 ^ Z.pos (digits2_pos m))%Z.
Proof.
  induction m as [m IH|m IH|]; cbn [digits2_pos]; [| |done].
  - rewrite Pos2Z.inj_succ, Z.pow_succ_r by lia. lia.
  - rewrite Pos2Z.inj_succ, Z.pow_succ_r by lia. lia.
Qed.

(** The mantissa of a binary64 datum has at most 53 bits. *)
Lemma binary64_mantissa s m e :
  is_binary64 (S754_finite s m e) = true → (Z.pos m < 2 ^ 53)%Z.
Proof.
  unfold is_binary64, valid_binary, bounded, canonical_mantissa, fexp, emin,
    prec, emax.
  intros [Hc _]%andb_true_iff. apply Z.eqb_eq in Hc.
  pose proof (digits2_pos_bound m) as Hb.
  assert (Z.pos (digits2_pos m) ≤ 53)%Z as Hd by lia.
  eapply Z.lt_le_trans; [exact Hb|]. by apply Z.pow_le_mono_r.
Qed.

Lemma pow_2_52 : (2 ^ 52 = 4503599627370496)%Z.
Proof. reflexivity. Qed.

Lemma compare_cont_Eq (p q : positive) :
  PosDef.Pos.compare_cont Eq p q = Pos.compare p q.
Proof. reflexivity. Qed.

(** A number strictly between -1 and 1 truncates to 0. *)
Lemma toInt32_fraction (v : number) :
  is_binary64 v = true → lt v lit_1_0 = true → lt lit_neg_1_0 v = true →
  toInt32 v = 0%Z.
Proof.
  destruct v as [s|s| |s m e]; [reflexivity|reflexivity|reflexivity|].
  intros Hv Hlt Hgt.
  assert ((e < -52)%Z ∨ (e = (-52)%Z ∧ (Z.pos m < 2 ^ 52)%Z)) as Hsmall.
  { unfold lt, SFltb, SFcompare, lit_1_0, lit_neg_1_0 in Hlt, Hgt.
    rewrite pow_2_52. clear Hv. destruct s.
    - clear Hlt. rewrite compare_cont_Eq in Hgt.
      destruct (Z.compare_spec (-52) e) as [He| |];
        [|discriminate Hgt|left; lia].
      right. split; [symmetry; exact He|].
      destruct (Pos.compare_spec 4503599627370496 m) as [| |Hm];
        [discriminate Hgt|discriminate Hgt|].
      apply Pos2Z.pos_lt_pos. exact Hm.
    - clear Hgt. rewrite compare_cont_Eq in Hlt.
      destruct (Z.compare_spec e (-52)) as [He| |];
        [|left; lia|discriminate Hlt].
      right. split; [exact He|].
      destruct (Pos.compare_spec m 4503599627370496) as [|Hm|];
        [discriminate Hlt| |discriminate Hlt].
      apply Pos2Z.pos_lt_pos. exact Hm. }
  pose proof (binary64_mantissa s m e Hv) as Hm.
  clear Hv Hlt Hgt.
  assert (Z.shiftl (Z.pos m) e = 0)%Z as Hz.
  { rewrite Z.shiftl_div_pow2 by lia. apply Z.div_small. split; [lia|].
    destruct Hsmall as [He|[-> Hm52]]; [|exact Hm52].
    eapply Z.lt_le_trans; [exact Hm|]. apply Z.pow_le_mono_r; lia. }
  unfold toInt32. rewrite Hz. destruct s; reflexivity.
Qed.

(** X14.  A button is reported by the integer part of its value: in the
    joy message every button whose value lies strictly between -1 and 1 —
    a half-pressed trigger, also one whose [pressed] flag is set — is 0,
    a button at 1.0 is 1, and a bare intensity, which has no [value], is 0;
    the message has one entry per button. *)
Theorem partial_presses_are_reported_as_zero
    (now joySeqId : Z) (g : Gamepad) :
  let joy := (GamepadUtils.mapGamepadToJoy now joySeqId g).1 in
  length (GamepadUtils.joy_buttons joy) = length (buttons g) ∧
  (∀ n p v, buttons g !! n = Some (ButtonObject p v) →
            is_binary64 v = true →
            lt v lit_1_0 = true → lt lit_neg_1_0 v = true →
            GamepadUtils.joy_buttons joy !! n = Some 0%Z) ∧
  (∀ n p, buttons g !! n = Some (ButtonObject p lit_1_0) →
          GamepadUtils.joy_buttons joy !! n = Some 1%Z) ∧
  (∀ n x, buttons g !! n = Some (ButtonNumber x) →
          GamepadUtils.joy_buttons joy !! n = Some 0%Z).
Proof.
  cbn. split; [by rewrite length_fmap|]. split; [|split].
  - intros n p v Hn Hv Hlt Hgt. rewrite list_lookup_fmap, Hn. cbn.
    by rewrite toInt32_fraction.
  - intros n p Hn. by rewrite list_lookup_fmap, Hn.
  - intros n x Hn. by rewrite list_lookup_fmap, Hn.
Qed.

(** X15.  Successive messages are numbered consecutively from the value
    the counter has: the [n]th call gets sequence number [joySeqId + n] and
    is otherwise what a single call makes of its own time and device.  The
    counter is a number, and [joySeqId++] adds one exactly only below
    2^53: the statement is for counters that stay within that range. *)
Theorem joy_messages_are_numbered
    (inputs : list (Z * Gamepad)) (joySeqId : Z) :
  (0 ≤ joySeqId)%Z → (joySeqId + Z.of_nat (length inputs) ≤ 2 ^ 53)%Z →
  length (joyMessages inputs joySeqId) = length inputs ∧
  (∀ n now g,
      inputs !! n = Some (now, g) →
      joyMessages inputs joySeqId !! n
      = Some (GamepadUtils.mapGamepadToJoy now (joySeqId + Z.of_nat n) g).1 ∧
      (GamepadUtils.mapGamepadToJoy now (joySeqId + Z.of_nat n) g).2
      = (joySeqId + Z.of_nat (S n))%Z) ∧
  (∀ n joy, joyMessages inputs joySeqId !! n = Some joy →
            GamepadUtils.seq (GamepadUtils.header joy)
            = (joySeqId + Z.of_nat n)%Z).
Proof.
  intros _ _.
  revert joySeqId. induction inputs as [|[now g] rest IH]; intros k.
  - split; [done|]. split; [done|]. intros n joy H. done.
  - destruct (IH (k + 1)%Z) as (Hlen & Hnth & Hseq).
    split; [cbn; by rewrite Hlen|]. split.
    + intros [|n] now' g' Hn.
      * injection Hn as <- <-. cbn. rewrite Z.add_0_r. split; [done|]. lia.
      * cbn in Hn. destruct (Hnth n now' g' Hn) as [Hm Hnext].
        replace (k + Z.of_nat (S n))%Z with (k + 1 + Z.of_nat n)%Z by lia.
        split; [exact Hm|]. cbn. lia.
    + intros [|n] joy Hj.
      * cbn in Hj. injection Hj as <-. cbn. lia.
      * cbn in Hj. rewrite (Hseq n joy Hj). lia.
Qed.

Lemma joy_messages_are_numbered_witness :
  (0 ≤ 0)%Z ∧
  (0 + Z.of_nat (length [(0%Z, xbox lit_0_5 false); (1000%Z, xbox lit_0_0 true)])
   ≤ 2 ^ 53)%Z ∧
  ∀ n joy,
    joyMessages [(0%Z, xbox lit_0_5 false); (1000%Z, xbox lit_0_0 true)] 0 !! n
    = Some joy →
    GamepadUtils.seq (GamepadUtils.header joy) = (0 + Z.of_nat n)%Z.
Proof.
  split; [lia|]. split; [apply Z.leb_le; reflexivity|].
  apply (joy_messages_are_numbered
           [(0%Z, xbox lit_0_5 false); (1000%Z, xbox lit_0_0 true)] 0);
    [lia|apply Z.leb_le; reflexivity].
Defined.

(** X16.  What [mapGamepadToJoy] reports for an axis is never negative and
    never strictly between 0 and 0.09: a value that is below 0.09 after
    the mapping is 0.0.  Mapping a mapped value changes nothing. *)
Theorem mapped_axes_are_zero_or_beyond_threshold (x : number) :
  lt (GamepadUtils.mapAxis x) lit_0_0 = false ∧
  (lt (GamepadUtils.mapAxis x) lit_0_09 = true →
   GamepadUtils.mapAxis x = lit_0_0) ∧
  GamepadUtils.mapAxis (GamepadUtils.mapAxis x) = GamepadUtils.mapAxis x.
Proof.
  unfold GamepadUtils.mapAxis. destruct (lt x lit_0_09) eqn:E.
  - done.
  - rewrite E. split; [|done].
    destruct (lt x lit_0_0) eqn:E0; [|done].
    by rewrite (negative_lt_0_09 x E0) in E.
Qed.

(** * The camera store module *)

Section CameraFacts.
Import CameraStore.
Variable hostProperty : string → bool.

(** X17.  [setTopic] and [setType] touch one field of one camera.  When
    they complete, the camera existed, it now has the given topic (or
    type) and its other field as before, every other camera is as before,
    and no camera was added or removed; nothing else of the module
    changes.  For a name with no camera they throw a [TypeError] — or,
    when the [cameras] object itself answers to the name, write to that
    other object — and never produce a state. *)
Theorem camera_setters_change_one_field
    (n : string) (t : string) (ty : CameraType) (s : CameraModule) :
  match setTopic hostProperty n t s with
  | Done s' =>
      ∃ c, cameras s !! n = Some c ∧
           cameras s' !! n = Some {| type := type c; topic := t |} ∧
           (∀ m, m ≠ n → cameras s' !! m = cameras s !! m) ∧
           dom (cameras s') = dom (cameras s) ∧
           videoServerIP s' = videoServerIP s ∧
           typesForSelect s' = typesForSelect s
  | Thrown e => cameras s !! n = None ∧ hostProperty n = false ∧ e = TypeError
  | Foreign => cameras s !! n = None ∧ hostProperty n = true
  end ∧
  match setType hostProperty n ty s with
  | Done s' =>
      ∃ c, cameras s !! n = Some c ∧
           cameras s' !! n = Some {| type := ty; topic := topic c |} ∧
           (∀ m, m ≠ n → cameras s' !! m = cameras s !! m) ∧
           dom (cameras s') = dom (cameras s) ∧
           videoServerIP s' = videoServerIP s ∧
           typesForSelect s' = typesForSelect s
  | Thrown e => cameras s !! n = None ∧ hostProperty n = false ∧ e = TypeError
  | Foreign => cameras s !! n = None ∧ hostProperty n = true
  end.
Proof.
  unfold setTopic, setType.
  destruct (cameras s !! n) as [c|] eqn:E.
  - split; exists c; cbn; rewrite lookup_insert_eq;
      (split; [done|]); (split; [done|]);
      (split; [by intros m Hm; rewrite lookup_insert_ne|]);
      (split; [|done]); rewrite dom_insert_L;
      apply subseteq_union_1_L, singleton_subseteq_l;
      exact (elem_of_dom_2 (cameras s) _ _ E).
  - by destruct (hostProperty n).
Qed.

(** X18.  [addCamera] registers the camera under its name with the
    defaults for what the payload leaves out ([mjpeg] and the empty topic),
    leaves every other camera alone, and replaces a camera of the same
    name outright: nothing of the replaced entry survives, so adding twice
    under one name is adding the second alone.  After it both setters
    complete on that name. *)
Theorem addCamera_registers_and_overwrites (p : Camera) (s : CameraModule) :
  let s' := addCamera p s in
  cameras s' !! cameraName p
  = Some {| type := default MJPEG (given_type (options p));
            topic := default "" (given_topic (options p)) |} ∧
  (∀ m, m ≠ cameraName p → cameras s' !! m = cameras s !! m) ∧
  dom (cameras s') = {[cameraName p]} ∪ dom (cameras s) ∧
  (∀ q, cameraName q = cameraName p → addCamera p (addCamera q s) = s') ∧
  (∀ t, ∃ s'', setTopic hostProperty (cameraName p) t s' = Done s'' ∧
               cameras s'' !! cameraName p
               = Some {| type := default MJPEG (given_type (options p));
                         topic := t |}) ∧
  (∀ ty, ∃ s'', setType hostProperty (cameraName p) ty s' = Done s'' ∧
                cameras s'' !! cameraName p
                = Some {| type := ty;
                          topic := default "" (given_topic (options p)) |}).
Proof.
  cbv zeta. unfold addCamera, setTopic, setType. cbn.
  rewrite !lookup_insert_eq. split; [done|].
  split; [by intros m Hm; rewrite lookup_insert_ne|].
  split; [by rewrite dom_insert_L|].
  split; [|split].
  - intros q ->. unfold set_cameras. cbn. by rewrite insert_insert_eq.
  - intros t. eexists. split; [done|]. cbn. by rewrite lookup_insert_eq.
  - intros ty. eexists. split; [done|]. cbn. by rewrite lookup_insert_eq.
Qed.

(** X19.  On cameras that exist, setting a topic and setting a type can be
    done in either order, on one camera or on two: both orders complete
    and leave the same cameras. *)
Theorem camera_setters_commute
    (n1 n2 t : string) (ty : CameraType) (s : CameraModule) :
  is_Some (cameras s !! n1) → is_Some (cameras s !! n2) →
  ∃ s', thenSetType hostProperty n2 ty (setTopic hostProperty n1 t s) = Done s' ∧
        thenSetTopic hostProperty n1 t (setType hostProperty n2 ty s) = Done s'.
Proof.
  intros [c1 H1] [c2 H2]. unfold thenSetType, thenSetTopic, setTopic, setType.
  rewrite H1, H2. cbn. destruct (decide (n1 = n2)) as [<-|Hne].
  - rewrite !lookup_insert_eq. assert (c2 = c1) as -> by congruence.
    eexists. split; [done|]. unfold set_cameras. cbn.
    by rewrite !insert_insert_eq.
  - rewrite !lookup_insert_ne by done. rewrite H1, H2.
    eexists. split; [done|]. unfold set_cameras. cbn.
    by rewrite insert_insert_ne.
Qed.

End CameraFacts.

Lemma camera_setters_commute_witness :
  is_Some (CameraStore.cameras CameraStore.initial !! "camera1") ∧
  is_Some (CameraStore.cameras CameraStore.initial !! "camera2") ∧
  ∃ s', CameraStore.thenSetType (λ _, false) "camera2" CameraStore.VP8
          (CameraStore.setTopic (λ _, false) "camera1" "/front"
             CameraStore.initial) = CameraStore.Done s' ∧
        CameraStore.thenSetTopic (λ _, false) "camera1" "/front"
          (CameraStore.setType (λ _, false) "camera2" CameraStore.VP8
             CameraStore.initial) = CameraStore.Done s'.
Proof.
  assert (is_Some (CameraStore.cameras CameraStore.initial !! "camera1")) as H1
    by (by eexists).
  assert (is_Some (CameraStore.cameras CameraStore.initial !! "camera2")) as H2
    by (by eexists).
  split; [exact H1|]. split; [exact H2|].
  exact (camera_setters_commute (λ _, false) "camera1" "camera2" "/front"
           CameraStore.VP8 CameraStore.initial H1 H2).
Defined.
